(** * Double U-Net graph construction (mapalign_multires/model_utils.py)

    A shallow embedding of the graph-building functions of
    [projects/mapalign/mapalign_multires/model_utils.py].

    The functions of the module never compute with tensor values: they
    build a graph of symbolic tensor handles.  A handle is modelled by the
    expression that built it ([Tensor]), and its static shape is computed
    from that expression ([get_shape]).

    Conventions of the model:
    - tensors handled by the module are 4-D, (batch, height, width,
      channels), with a fully defined static shape; the result of
      [tf.stack] is 5-D and has a type of its own ([Stacked]);
    - the framework operators are constructors of the graph.  What the
      module can make them refuse is modelled in the [result] monad, as
      the [ValueError] of graph construction: a 3x3 convolution or a 2x2
      pooling without padding on an input smaller than its window, and a
      concatenation of the features of two branches that differ in batch
      size, height or width.  The operators that cannot shrink a tensor
      (resizing, cropping or padding, convolutions with same padding or a
      1x1 kernel) accept every tensor of positive extent; channel counts
      are taken to be positive, and the levels of one pyramid to have one
      batch size;
    - what Python itself raises inside the module is modelled in the same
      monad: a failed [assert], a [None] used where a tensor is needed, an
      index out of range, and stacking an empty list;
    - [math.pow(2, i)] yields a float that denotes the exact power of two;
      it is modelled by the integer [2 ^ i];
    - float literals and the weight decay rate are kept as rationals;
    - the ambient [tf.variable_scope] is passed explicitly as a path;
      [print_debug] and [tf.summary.histogram] only log and are left out. *)

From Stdlib Require Import ZArith List String Bool Lia QArith DecimalString.
Import ListNotations.

Local Open Scope string_scope.
Local Open Scope list_scope.
Local Open Scope Z_scope.

(** ** Python-level failures *)

Inductive PyError : Type :=
| AssertionError (msg : string)
| TypeError (msg : string)
| IndexError (msg : string)
| ValueError (msg : string).

Inductive result (A : Type) : Type :=
| Ok (a : A)
| Raise (e : PyError).

Arguments Ok {A} a.
Arguments Raise {A} e.

Definition bind {A B : Type} (m : result A) (k : A -> result B) : result B :=
  match m with
  | Ok a => k a
  | Raise e => Raise e
  end.

Notation "x <- m ;; k" := (bind m (fun x => k))
  (at level 61, m at next level, right associativity).
Notation "' p <- m ;; k" := (bind m (fun x => match x with p => k end))
  (at level 61, p pattern, m at next level, right associativity).

(** [for x in xs: s = body(x, s)], stopping at the first exception. *)
Fixpoint for_each {A S : Type} (xs : list A) (s : S)
         (body : A -> S -> result S) : result S :=
  match xs with
  | [] => Ok s
  | x :: xs' => s' <- body x s ;; for_each xs' s' body
  end.

(** [range(n)] and [range(n - 1, -1, -1)]. *)
Definition range (n : Z) : list Z := map Z.of_nat (seq 0 (Z.to_nat n)).
Definition range_down (n : Z) : list Z := rev (range n).

(** [enumerate(xs)]. *)
Definition enumerate {A : Type} (xs : list A) : list (Z * A) :=
  combine (map Z.of_nat (seq 0 (List.length xs))) xs.

(** [xs[i]]: a negative index counts from the end of the list. *)
Definition getitem {A : Type} (xs : list A) (i : Z) : result A :=
  let j := if i <? 0 then Z.of_nat (List.length xs) + i else i in
  if j <? 0 then Raise (IndexError "list index out of range")
  else match nth_error xs (Z.to_nat j) with
       | Some x => Ok x
       | None => Raise (IndexError "list index out of range")
       end.

(** A Python value that must be a tensor and may be [None]. *)
Definition require {A : Type} (o : option A) : result A :=
  match o with
  | Some a => Ok a
  | None => Raise (TypeError "NoneType")
  end.

(** ["...{}".format(i)] for an integer [i]. *)
Definition str (i : Z) : string := NilZero.string_of_int (Z.to_int i).
Definition format (prefix : string) (arg : string) : string :=
  String.append prefix arg.

(** [math.pow(2, i)] on a non-negative integer. *)
Definition pow2 (i : Z) : Z := 2 ^ i.

(** ** The tensor framework *)

Module tf.

Inductive Padding : Type := VALID | SAME.

Inductive Activation : Type := elu | tanh | identity.

(** The handle [tf.placeholder(tf.float32)] returns. *)
Inductive Placeholder : Type := placeholder (id : nat).

Record Shape : Type := mkShape
  { batch : Z; height : Z; width : Z; channels : Z }.

(** A 4-D tensor handle: the graph node that produced it. *)
Inductive Tensor : Type :=
| input_tensor (name : string) (shape : Shape)
| conv_layer (scope : list string) (input : Tensor)
    (output_channels : Z) (kernel_size : Z * Z) (padding : Padding)
    (activation : option Activation) (bias_init_value : Q)
    (weight_decay : option Q)
| max_pooling2d (inputs : Tensor) (pool_size strides : Z * Z)
    (name : string)
| resize_bilinear (images : Tensor) (size : Z * Z) (name : string)
| resize_image_with_crop_or_pad (image : Tensor)
    (target_height target_width : Z)
| concat (a b : Tensor) (name : string)
| conv2d (scope : list string) (inputs : Tensor) (filters : Z)
    (kernel_size : Z * Z) (name : string) (activation : Activation)
    (padding : Padding)
| sigmoid (x : Tensor).

(** Output extent of a window of size [k] moved by [stride]. *)
Definition window_extent (padding : Padding) (extent k stride : Z) : Z :=
  match padding with
  | VALID => (extent - k) / stride + 1
  | SAME => (extent + stride - 1) / stride
  end.

(** Static shape inference.  [conv_layer] is a stride-1 convolution
    followed by shape-preserving steps; [concat] joins along the last
    axis. *)
Fixpoint get_shape (t : Tensor) : Shape :=
  match t with
  | input_tensor _ s => s
  | conv_layer _ x F k p _ _ _ =>
      let s := get_shape x in
      mkShape (batch s) (window_extent p (height s) (fst k) 1)
              (window_extent p (width s) (snd k) 1) F
  | max_pooling2d x k st _ =>
      let s := get_shape x in
      mkShape (batch s) (window_extent VALID (height s) (fst k) (fst st))
              (window_extent VALID (width s) (snd k) (snd st)) (channels s)
  | resize_bilinear x sz _ =>
      let s := get_shape x in
      mkShape (batch s) (fst sz) (snd sz) (channels s)
  | resize_image_with_crop_or_pad x h w =>
      let s := get_shape x in
      mkShape (batch s) h w (channels s)
  | concat a b _ =>
      let s := get_shape a in
      mkShape (batch s) (height s) (width s)
              (channels s + channels (get_shape b))
  | conv2d _ x F k _ _ p =>
      let s := get_shape x in
      mkShape (batch s) (window_extent p (height s) (fst k) 1)
              (window_extent p (width s) (snd k) 1) F
  | sigmoid x => get_shape x
  end.

(** A window of size [k] moved without padding over [x] must fit in its
    height and width: graph construction fails otherwise. *)
Definition window_check (x : Tensor) (k : Z * Z) : result unit :=
  if (fst k <=? height (get_shape x)) && (snd k <=? width (get_shape x))
  then Ok tt
  else Raise (ValueError "Negative dimension size").

(** Tensors concatenated along the last axis must agree on the other
    axes: graph construction fails otherwise. *)
Definition concat_check (a b : Tensor) : result unit :=
  if (batch (get_shape a) =? batch (get_shape b))
     && (height (get_shape a) =? height (get_shape b))
     && (width (get_shape a) =? width (get_shape b))
  then Ok tt
  else Raise (ValueError "Dimensions must be equal").

(** The 5-D result of [tf.stack(values, axis=1)]. *)
Inductive Stacked : Type :=
| stacked (values : list Tensor) (axis : Z) (name : string).

Definition unstack (s : Stacked) : list Tensor :=
  match s with stacked values _ _ => values end.

(** [tf.stack(values, axis=1, name=...)]; it reads [values[0]]. *)
Definition stack (values : list Tensor) (name : string) : result Stacked :=
  match values with
  | [] => Raise (IndexError "list index out of range")
  | _ :: _ => Ok (stacked values 1 name)
  end.

(** Shape of a stack along axis 1: (batch, level, height, width,
    channels), the level axis counting the stacked tensors. *)
Definition stacked_shape (s : Stacked) : list Z :=
  match unstack s with
  | [] => []
  | v :: _ =>
      let sh := get_shape v in
      [batch sh; Z.of_nat (List.length (unstack s)); height sh; width sh;
       channels sh]
  end.

End tf.

Import tf.

Module tf_utils.

(** Modelled from the spec: [tf_utils.complete_conv2d] lives in
    [projects/utils/tf_utils.py], which is not among the sources at
    hand.  Section 4.1 of the specification describes each call as one
    convolution with the given kernel producing the target channel
    count, followed by normalization and activation; 4.1 and 4.2 give
    the paddings (none, shrinking the extent by 2 for a 3x3 kernel, or
    same).  [activation = None] stands for the helper's own default. *)
Definition complete_conv2d (sc : list string) (input : Tensor)
    (output_channels : Z) (kernel_size : Z * Z) (padding : Padding)
    (activation : option Activation) (bias_init_value : Q)
    (weight_decay : option Q) : Tensor :=
  conv_layer sc input output_channels kernel_size padding activation
             bias_init_value weight_decay.

End tf_utils.


(** ** model_utils.py *)

Definition Scope : Type := list string.

(** [with tf.variable_scope(name)] inside scope [sc]. *)
Definition variable_scope (sc : Scope) (name : string) : Scope := sc ++ [name].

(** [-0.01], the bias initial value used throughout. *)
Definition bias_init : Q := (-1 # 100)%Q.

(** [conv_conv_pool(input_, n_filters, name, pool, activation,
    weight_decay, dropout_keep_prob)].  Its convolutions and its pooling
    have no padding. *)
Definition conv_conv_pool (sc : Scope) (input_ : Tensor) (n_filters : list Z)
    (name : string) (pool : bool) (activation : Activation)
    (weight_decay : option Q) (dropout_keep_prob : option Placeholder)
  : result (Tensor * option Tensor) :=
  let sc := variable_scope sc (format "layer_" name) in
  net <-
    for_each n_filters input_
      (fun F net =>
         _ <- window_check net (3, 3) ;;
         Ok (tf_utils.complete_conv2d sc net F (3, 3) VALID (Some activation)
                                      bias_init weight_decay)) ;;
  if negb pool then Ok (net, None)
  else
    _ <- window_check net (2, 2) ;;
    Ok (net, Some (max_pooling2d net (2, 2) (2, 2) (format "pool_" name))).

(** One resolution level of an input branch: [(conv, pool)]. *)
Definition Level : Type := (option Tensor * option Tensor)%type.

(** [levels[-1][1]], the previous pool, as the tensor a convolution needs. *)
Definition previous_pool (levels : list Level) : result Tensor :=
  l <- getitem levels (-1) ;; require (snd l).

(** The body of the loop of [build_input_branch]: the level built at
    [res_level_index], appended to [levels]. *)
Definition input_level (sc : Scope) (input : Tensor)
    (feature_base_count res_levels : Z) (weight_decay : option Q)
    (res_level_index : Z) (levels : list Level) : result (list Level) :=
  let feature_count := feature_base_count * pow2 res_level_index in
  let block_name := format "conv_pool_" (str res_level_index) in
  '(conv, pool) <-
    (if res_level_index =? 0 then
       '(conv, pool) <-
         conv_conv_pool sc input [feature_count; feature_count] block_name
                        true elu weight_decay None ;;
       Ok (Some conv, pool)
     else if res_level_index <? res_levels - 1 then
       level_input <- previous_pool levels ;;
       '(conv, pool) <-
         conv_conv_pool sc level_input [feature_count; feature_count]
                        block_name true elu weight_decay None ;;
       Ok (Some conv, pool)
     else if res_level_index =? res_levels - 1 then
       level_input <- previous_pool levels ;;
       '(conv, pool) <-
         conv_conv_pool sc level_input [feature_count; feature_count]
                        block_name false elu weight_decay None ;;
       Ok (Some conv, pool)
     else Ok (None, None)) ;;
  Ok (levels ++ [(conv, pool)]).

(** [build_input_branch(input, feature_base_count, pool_count, name,
    weight_decay)]. *)
Definition build_input_branch (sc : Scope) (input : Tensor)
    (feature_base_count pool_count : Z) (name : string)
    (weight_decay : option Q) : result (list Level) :=
  let res_levels := pool_count + 1 in
  let sc := variable_scope sc name in
  for_each (range res_levels) []
           (input_level sc input feature_base_count res_levels weight_decay).

(** [upsample_crop_concat(to_upsample, input_to_crop, size, weight_decay,
    name)].  The convolution has same padding, and the two tensors
    concatenated have been brought to one height and width. *)
Definition upsample_crop_concat (sc : Scope) (to_upsample input_to_crop : Tensor)
    (size : Z * Z) (weight_decay : option Q) (name : string) : Tensor :=
  let H := height (get_shape to_upsample) in
  let W := width (get_shape to_upsample) in
  let target_C := channels (get_shape input_to_crop) in
  let '(H_multi, W_multi) := size in
  let target_H := H * H_multi in
  let target_W := W * W_multi in
  let upsample :=
    resize_bilinear to_upsample (target_H, target_W) (format "upsample_" name) in
  let upsample :=
    tf_utils.complete_conv2d sc upsample target_C (3, 3) SAME None bias_init
                             weight_decay in
  let crop := resize_image_with_crop_or_pad input_to_crop target_H target_W in
  concat upsample crop (format "concat_" name).

(** [upsample_crop(input, resolution, factor, name)]. *)
Definition upsample_crop (input : Tensor) (resolution : Z * Z)
    (factor : Z * Z) (name : string) : Tensor :=
  let up_size := (height (get_shape input) * fst factor,
                  width (get_shape input) * snd factor) in
  let input_upsampled :=
    resize_bilinear input up_size (format "upsample_" name) in
  let input_cropped :=
    resize_image_with_crop_or_pad input_upsampled (fst resolution)
                                  (snd resolution) in
  input_cropped.

(** The failed [assert] of [build_common_part]. *)
Definition ShapeMismatch : PyError :=
  AssertionError "The two branches do not have the same number of levels".

(** The body of the loop of [build_common_part]. *)
Definition common_level (sc : Scope) (branch_a_levels branch_b_levels : list Level)
    (feature_base_count : Z) (weight_decay : option Q)
    (level_index : Z) (levels : list Tensor) : result (list Tensor) :=
  level_a <- getitem branch_a_levels level_index ;;
  level_b <- getitem branch_b_levels level_index ;;
  conv_a <- require (fst level_a) ;;
  conv_b <- require (fst level_b) ;;
  _ <- concat_check conv_a conv_b ;;
  let concat_a_b :=
    concat conv_a conv_b (format "concat_a_b_" (str level_index)) in
  let feature_count := feature_base_count * pow2 level_index in
  '(concat_a_b_conv, _) <-
    conv_conv_pool sc concat_a_b [feature_count; feature_count]
                   (format "concat_a_b_conv" (str level_index)) false
                   elu weight_decay None ;;
  Ok (levels ++ [concat_a_b_conv]).

(** [build_common_part(branch_a_levels, branch_b_levels,
    feature_base_count, name, weight_decay)]. *)
Definition build_common_part (sc : Scope) (branch_a_levels branch_b_levels : list Level)
    (feature_base_count : Z) (name : string) (weight_decay : option Q)
  : result (list Tensor) :=
  if negb (Nat.eqb (List.length branch_a_levels) (List.length branch_b_levels))
  then Raise ShapeMismatch
  else
    let res_levels := Z.of_nat (List.length branch_a_levels) in
    let sc := variable_scope sc name in
    for_each (range res_levels) []
             (common_level sc branch_a_levels branch_b_levels
                           feature_base_count weight_decay).

(** The body of the loop of [build_output_branch]; the loop state is
    [(prev_level_output, output_levels)]. *)
Definition output_level (sc : Scope) (input_levels : list Tensor)
    (feature_base_count : Z) (weight_decay : option Q) (level_index : Z)
    (st : option Tensor * list Tensor) : result (option Tensor * list Tensor) :=
  let '(prev_level_output, output_levels) := st in
  match prev_level_output with
  | None =>
      level <- getitem input_levels level_index ;;
      Ok (Some level, output_levels)
  | Some prev =>
      level <- getitem input_levels level_index ;;
      let up :=
        upsample_crop_concat sc prev level (2, 2) weight_decay
                             (format "up_" (str level_index)) in
      let feature_count := feature_base_count * pow2 level_index in
      '(final_conv, _) <-
        conv_conv_pool sc up [feature_count; feature_count]
                       (format "final_conv_" (str level_index)) false elu
                       weight_decay None ;;
      Ok (Some final_conv, final_conv :: output_levels)
  end.

(** [build_output_branch(input_levels, feature_base_count, name,
    weight_decay)]. *)
Definition build_output_branch (sc : Scope) (input_levels : list Tensor)
    (feature_base_count : Z) (name : string) (weight_decay : option Q)
  : result (list Tensor) :=
  let sc := variable_scope sc name in
  let res_levels := Z.of_nat (List.length input_levels) in
  '(_, output_levels) <-
    for_each (range_down res_levels) (None, [])
             (output_level sc input_levels feature_base_count weight_decay) ;;
  Ok output_levels.

(** Loop state of [build_pred_branches]: [output_levels],
    [output_level_0] and [level_0_resolution]. *)
Definition PredState : Type :=
  (list Tensor * option Tensor * option (Z * Z))%type.

(** The body of the loop of [build_pred_branches]. *)
Definition pred_level (sc : Scope) (output_channels : Z)
    (final_activation : Activation) (item : Z * Tensor) (st : PredState)
  : result PredState :=
  let '(level_index, input) := item in
  let '(output_levels, output_level_0, level_0_resolution) := st in
  let pred :=
    conv2d sc input output_channels (1, 1)
           (format "pred_conv1x1_level_" (str level_index)) final_activation
           VALID in
  if level_index =? 0 then
    let output_level_0 := Some pred in
    let level_0_resolution :=
      Some (height (get_shape pred), width (get_shape pred)) in
    Ok (output_levels ++ [pred], output_level_0, level_0_resolution)
  else
    let single_factor := pow2 level_index in
    resolution <- require level_0_resolution ;;
    let pred :=
      upsample_crop pred resolution (single_factor, single_factor)
                    (format "convert_disp_pred_" (str level_index)) in
    Ok (output_levels ++ [pred], output_level_0, level_0_resolution).

(** [build_pred_branches(input_levels, output_channels, final_activation,
    name)]. *)
Definition build_pred_branches (sc : Scope) (input_levels : list Tensor)
    (output_channels : Z) (final_activation : Activation) (name : string)
  : result (option Tensor * Stacked) :=
  let sc := variable_scope sc name in
  '(output_levels, output_level_0, _) <-
    for_each (enumerate input_levels) ([], None, None)
             (pred_level sc output_channels final_activation) ;;
  stacked_output_levels <- stack output_levels "stacked_preds" ;;
  Ok (output_level_0, stacked_output_levels).

(** The five values [build_double_unet] returns. *)
Record Network : Type := mkNetwork
  { level_0_disp_pred : option Tensor;
    stacked_disp_preds : Stacked;
    level_0_seg_pred : option Tensor;
    stacked_seg_pred_logits : option Stacked;
    keep_prob : Placeholder }.

(** The four prediction outputs of a network. *)
Definition predictions (n : Network)
  : option Tensor * Stacked * option Tensor * option Stacked :=
  (level_0_disp_pred n, stacked_disp_preds n, level_0_seg_pred n,
   stacked_seg_pred_logits n).

(** [build_double_unet(input_image, input_poly_map,
    image_feature_base_count, poly_map_feature_base_count,
    common_feature_base_count, pool_count, disp_output_channels,
    add_seg_output, seg_output_channels, weight_decay)].  The first
    argument is the handle that [tf.placeholder(tf.float32)] hands out
    when the function creates [keep_prob]. *)
Definition build_double_unet (new_placeholder : Placeholder)
    (input_image input_poly_map : Tensor)
    (image_feature_base_count poly_map_feature_base_count
       common_feature_base_count pool_count disp_output_channels : Z)
    (add_seg_output : bool) (seg_output_channels : Z)
    (weight_decay : option Q) : result Network :=
  let keep_prob := new_placeholder in
  branch_image_levels <-
    build_input_branch [] input_image image_feature_base_count pool_count
                       "branch_image" weight_decay ;;
  branch_poly_map_levels <-
    build_input_branch [] input_poly_map poly_map_feature_base_count
                       pool_count "branch_poly_map" weight_decay ;;
  common_part_levels <-
    build_common_part [] branch_image_levels branch_poly_map_levels
                      common_feature_base_count "common_part" weight_decay ;;
  disp_levels <-
    build_output_branch [] common_part_levels common_feature_base_count
                        "branch_disp" weight_decay ;;
  seg_levels <-
    (if add_seg_output then
       levels <- build_output_branch [] common_part_levels
                                     common_feature_base_count "branch_seg"
                                     weight_decay ;;
       Ok (Some levels)
     else Ok None) ;;
  '(level_0_disp_pred, stacked_disp_preds) <-
    build_pred_branches [] disp_levels disp_output_channels tanh
                        "branch_disp_pred" ;;
  '(level_0_seg_pred, stacked_seg_pred_logits) <-
    (if add_seg_output then
       seg_levels <- require seg_levels ;;
       '(level_0_seg_pred_logit, stacked_seg_pred_logits) <-
         build_pred_branches [] seg_levels seg_output_channels identity
                             "branch_seg_pred_logit" ;;
       level_0_seg_pred_logit <- require level_0_seg_pred_logit ;;
       let level_0_seg_pred := sigmoid level_0_seg_pred_logit in
       Ok (Some level_0_seg_pred, Some stacked_seg_pred_logits)
     else Ok (None, None)) ;;
  Ok (mkNetwork level_0_disp_pred stacked_disp_preds level_0_seg_pred
                stacked_seg_pred_logits keep_prob).

(** ** Vocabulary of the properties *)

(** Whether the level at index [i] of [P + 1] levels is pooled: the first
    level and every level before the last one are. *)
Definition pools_at (P i : Z) : bool := (i =? 0) || (i <? P).

(** The graph of a convolution block, as [conv_conv_pool] builds it when
    the framework accepts every operator. *)
Definition conv_block (sc : Scope) (input_ : Tensor) (n_filters : list Z)
    (name : string) (pool : bool) (activation : Activation)
    (weight_decay : option Q) : Tensor * option Tensor :=
  let sc := variable_scope sc (format "layer_" name) in
  let net :=
    fold_left
      (fun net F =>
         tf_utils.complete_conv2d sc net F (3, 3) VALID (Some activation)
                                  bias_init weight_decay)
      n_filters input_ in
  if negb pool then (net, None)
  else (net, Some (max_pooling2d net (2, 2) (2, 2) (format "pool_" name))).

(** What the framework asks of the input [x] of a block of [k]
    convolutions: room for each 3x3 window, and for the 2x2 window of the
    pooling. *)
Definition block_fits (x : Tensor) (k : nat) (pool : bool) : Prop :=
  (k <> 0%nat ->
   2 * Z.of_nat k + 1 <= height (get_shape x)
   /\ 2 * Z.of_nat k + 1 <= width (get_shape x))
  /\ (pool = true ->
      2 * Z.of_nat k + 2 <= height (get_shape x)
      /\ 2 * Z.of_nat k + 2 <= width (get_shape x)).

(** The level [build_input_branch] builds at index [i] from
    [level_input]. *)
Definition level_of (sc : Scope) (feature_base_count P : Z)
    (weight_decay : option Q) (i : Z) (level_input : Tensor) : Level :=
  let feature_count := feature_base_count * pow2 i in
  let '(conv, pool) :=
    conv_block sc level_input [feature_count; feature_count]
               (format "conv_pool_" (str i)) (pools_at P i) elu weight_decay in
  (Some conv, pool).

(** The least height and width that leave room for the [P + 1] levels of
    an input branch: 5 for the last level, and for each level before it
    twice what the next one needs, plus 4; 6 for a single, pooled level. *)
Definition min_extent (P : Z) : Z := Z.max 6 (9 * 2 ^ P - 4).

(** The height (or width) of the tensor that level [i] of an input branch
    is built from, for an input of height (or width) [e]: each level
    takes 4 off and halves, rounding down. *)
Fixpoint level_extent (e : Z) (i : nat) : Z :=
  match i with
  | O => e
  | S j => (level_extent e j - 4) / 2
  end.

(** [levels] is what the loop has built after its first [k] rounds. *)
Definition input_levels_built (sc : Scope) (input : Tensor)
    (feature_base_count P : Z) (weight_decay : option Q)
    (levels : list Level) : Prop :=
  forall i : nat, (i < List.length levels)%nat ->
    exists level_input,
      nth_error levels i
      = Some (level_of sc feature_base_count P weight_decay (Z.of_nat i)
                       level_input)
      /\ block_fits level_input 2 (pools_at P (Z.of_nat i))
      /\ (i = 0%nat -> level_input = input)
      /\ (i <> 0%nat ->
          exists prev, nth_error levels (Nat.pred i) = Some prev
                       /\ snd prev = Some level_input).

(** A level that carries a features tensor, and a pyramid of such levels. *)
Definition has_features (l : Level) : Prop := exists conv, fst l = Some conv.
Definition pyramid (levels : list Level) : Prop := Forall has_features levels.

(** The fused tensor [build_common_part] builds at index [i] from the
    features of the two branches. *)
Definition fused_level (sc : Scope) (feature_base_count : Z)
    (weight_decay : option Q) (i : Z) (conv_a conv_b : Tensor) : Tensor :=
  let feature_count := feature_base_count * pow2 i in
  fst (conv_block sc
         (concat conv_a conv_b (format "concat_a_b_" (str i)))
         [feature_count; feature_count] (format "concat_a_b_conv" (str i))
         false elu weight_decay).

(** [levels] holds the fused tensors of the first levels of [a] and [b]. *)
Definition fused_levels_built (sc : Scope) (a b : list Level)
    (feature_base_count : Z) (weight_decay : option Q)
    (levels : list Tensor) : Prop :=
  forall (i : nat) (t : Tensor), nth_error levels i = Some t ->
    exists la lb conv_a conv_b,
      nth_error a i = Some la /\ fst la = Some conv_a
      /\ nth_error b i = Some lb /\ fst lb = Some conv_b
      /\ t = fused_level sc feature_base_count weight_decay (Z.of_nat i)
                         conv_a conv_b.

(** Two levels that the common part can fuse: both carry features, of the
    same batch size, height and width, and of height and width 5 at
    least, the room that the two convolutions need. *)
Definition fusable_levels (la lb : Level) : Prop :=
  exists conv_a conv_b,
    fst la = Some conv_a /\ fst lb = Some conv_b
    /\ batch (get_shape conv_a) = batch (get_shape conv_b)
    /\ height (get_shape conv_a) = height (get_shape conv_b)
    /\ width (get_shape conv_a) = width (get_shape conv_b)
    /\ 5 <= height (get_shape conv_a)
    /\ 5 <= width (get_shape conv_a).

Definition fusable (a b : list Level) : Prop := Forall2 fusable_levels a b.

(** ** The end-to-end scenario

    An image of shape (1, 256, 256, 3), a polygon map of shape
    (1, 256, 256, 1), two poolings and base feature counts of 8. *)

Definition scenario_image : Tensor :=
  input_tensor "input_image" (mkShape 1 256 256 3).

Definition scenario_poly_map : Tensor :=
  input_tensor "input_poly_map" (mkShape 1 256 256 1).

(** The levels of a result, or no level when the construction failed. *)
Definition levels_of {A : Type} (r : result (list A)) : list A :=
  match r with
  | Ok levels => levels
  | Raise _ => []
  end.

Definition scenario_image_levels : list Level :=
  levels_of (build_input_branch [] scenario_image 8 2 "branch_image" None).

Definition scenario_poly_map_levels : list Level :=
  levels_of (build_input_branch [] scenario_poly_map 8 2 "branch_poly_map"
                                None).

Definition scenario_common_levels : list Tensor :=
  levels_of (build_common_part [] scenario_image_levels
                               scenario_poly_map_levels 8 "common_part" None).

(** ** Small inputs

    An image and a polygon map of height and width 20, with one pooling:
    the features of level 1 are 4x4. *)






(** The decoder output of one level: [upsample_crop_concat] of the
    previous output with the level, then the convolution block without
    pooling. *)
Definition final_conv (sc : Scope) (feature_base_count : Z)
    (weight_decay : option Q) (level_index : Z) (prev level : Tensor)
  : Tensor :=
  let up :=
    upsample_crop_concat sc prev level (2, 2) weight_decay
                         (format "up_" (str level_index)) in
  let feature_count := feature_base_count * pow2 level_index in
  fst (conv_block sc up [feature_count; feature_count]
                  (format "final_conv_" (str level_index)) false elu
                  weight_decay).

(** ** The decoder, as the specification words it

    Section 4.5: start from the coarsest fused level; from the
    second-coarsest level down to the finest, merge the previous output
    with the level and convolve; return the outputs finest first.
    [decoder_outputs sc c w i finer coarsest] are the outputs for the
    levels [finer], whose first element has index [i]. *)
Fixpoint decoder_outputs (sc : Scope) (feature_base_count : Z)
    (weight_decay : option Q) (i : Z) (finer : list Tensor)
    (coarsest : Tensor) : list Tensor :=
  match finer with
  | [] => []
  | level :: finer' =>
      let deeper :=
        decoder_outputs sc feature_base_count weight_decay (i + 1) finer'
                        coarsest in
      let prev := hd coarsest deeper in
      final_conv sc feature_base_count weight_decay i prev level :: deeper
  end.

(** What the framework asks of the decoder: the output that each level
    upsamples -- the coarsest level for the last of the [finer] levels,
    the output one level coarser for the others -- is 3x3 at least, so
    that twice its extent leaves room for the two convolutions. *)
Definition decoder_fits (sc : Scope) (feature_base_count : Z)
    (weight_decay : option Q) (finer : list Tensor) (coarsest : Tensor)
  : Prop :=
  forall j : nat, (j < List.length finer)%nat ->
    let prev :=
      hd coarsest
         (decoder_outputs sc feature_base_count weight_decay (Z.of_nat (S j))
                          (skipn (S j) finer) coarsest) in
    3 <= height (get_shape prev) /\ 3 <= width (get_shape prev).

(** ** The prediction head, level by level *)

(** The 1x1 prediction convolution of level [i]. *)
Definition pred_conv (sc : Scope) (output_channels : Z)
    (final_activation : Activation) (i : Z) (input : Tensor) : Tensor :=
  conv2d sc input output_channels (1, 1)
         (format "pred_conv1x1_level_" (str i)) final_activation VALID.

(** The prediction a level above 0 contributes to the stack: its
    prediction convolution, upsampled by [2^i] and cropped or padded to
    [resolution]. *)
Definition upsampled_pred (sc : Scope) (output_channels : Z)
    (final_activation : Activation) (resolution : Z * Z)
    (item : Z * Tensor) : Tensor :=
  let '(i, input) := item in
  upsample_crop (pred_conv sc output_channels final_activation i input)
                resolution (pow2 i, pow2 i)
                (format "convert_disp_pred_" (str i)).

(** Height and width of a tensor. *)
Definition resolution_of (t : Tensor) : Z * Z :=
  (height (get_shape t), width (get_shape t)).

(** ** Outcomes *)

(** The prediction outputs of a construction, or the error it raised. *)
Definition predicted (r : result Network)
  : result (option Tensor * Stacked * option Tensor * option Stacked) :=
  match r with
  | Ok n => Ok (predictions n)
  | Raise e => Raise e
  end.

(** The displacement outputs of a construction, or the error it raised. *)
Definition displacement (r : result Network)
  : result (option Tensor * Stacked) :=
  match r with
  | Ok n => Ok (level_0_disp_pred n, stacked_disp_preds n)
  | Raise e => Raise e
  end.

(** * Properties *)

(** ** Loops and lists *)

Lemma for_each_app {A S : Type} (xs ys : list A) (s : S)
      (body : A -> S -> result S) :
  for_each (xs ++ ys) s body
  = (s' <- for_each xs s body ;; for_each ys s' body).
Proof.
  revert s. induction xs as [|x xs IH]; intros s; simpl.
  - reflexivity.
  - destruct (body x s) as [s'|e]; simpl; [apply IH | reflexivity].
Qed.

Lemma for_each_ext {A S : Type} (xs : list A) (s : S)
      (body body' : A -> S -> result S) :
  (forall x s', body x s' = body' x s') ->
  for_each xs s body = for_each xs s body'.
Proof.
  intros Hext. revert s. induction xs as [|x xs IH]; intros s;
    [reflexivity|].
  cbn [for_each]. rewrite Hext. destruct (body' x s); [apply IH|reflexivity].
Qed.

Lemma range_of_nat (n : nat) :
  range (Z.of_nat n) = map Z.of_nat (seq 0 n).
Proof. unfold range. now rewrite Nat2Z.id. Qed.

Lemma range_succ (n : nat) :
  range (Z.of_nat (S n)) = range (Z.of_nat n) ++ [Z.of_nat n].
Proof.
  rewrite !range_of_nat, seq_S, map_app. reflexivity.
Qed.

Lemma range_down_succ (n : nat) :
  range_down (Z.of_nat (S n)) = Z.of_nat n :: range_down (Z.of_nat n).
Proof.
  unfold range_down. rewrite range_succ, rev_app_distr. reflexivity.
Qed.

Lemma getitem_of_nat {A : Type} (xs : list A) (i : nat) (x : A) :
  nth_error xs i = Some x -> getitem xs (Z.of_nat i) = Ok x.
Proof.
  intros H. unfold getitem.
  destruct (Z.ltb_spec (Z.of_nat i) 0) as [Hneg|_]; [lia|].
  destruct (Z.ltb_spec (Z.of_nat i) 0) as [Hneg|_]; [lia|].
  now rewrite Nat2Z.id, H.
Qed.

Lemma getitem_ok {A : Type} (xs : list A) (i : nat) (x : A) :
  getitem xs (Z.of_nat i) = Ok x -> nth_error xs i = Some x.
Proof.
  unfold getitem. destruct (Z.ltb_spec (Z.of_nat i) 0); [lia|].
  destruct (Z.ltb_spec (Z.of_nat i) 0); [lia|].
  rewrite Nat2Z.id. destruct (nth_error xs i); congruence.
Qed.

(** [xs[-1]] is the last element of a non-empty list. *)
Lemma getitem_last {A : Type} (xs : list A) (x : A) :
  nth_error xs (Nat.pred (List.length xs)) = Some x -> xs <> [] ->
  getitem xs (-1) = Ok x.
Proof.
  intros Hnth Hne. unfold getitem.
  assert (Hlen : (0 < List.length xs)%nat).
  { destruct xs; [contradiction|simpl; lia]. }
  change (-1 <? 0) with true. cbv iota.
  destruct (Z.ltb_spec (Z.of_nat (List.length xs) + -1) 0) as [Hneg|_]; [lia|].
  replace (Z.to_nat (Z.of_nat (List.length xs) + -1))
    with (Nat.pred (List.length xs)) by lia.
  now rewrite Hnth.
Qed.

(** [xs[-1]] returns nothing else. *)
Lemma getitem_last_ok {A : Type} (xs : list A) (x : A) :
  getitem xs (-1) = Ok x ->
  nth_error xs (Nat.pred (List.length xs)) = Some x /\ xs <> [].
Proof.
  unfold getitem. change (-1 <? 0) with true. cbv iota.
  destruct (Z.ltb_spec (Z.of_nat (List.length xs) + -1) 0) as [Hneg|Hpos];
    [discriminate|].
  replace (Z.to_nat (Z.of_nat (List.length xs) + -1))
    with (Nat.pred (List.length xs)) by lia.
  destruct (nth_error xs (Nat.pred (List.length xs))) as [y|] eqn:Hnth;
    [|discriminate].
  intros H. injection H as ->. split; [reflexivity|].
  intros ->. simpl in Hpos. lia.
Qed.

Lemma getitem_map {A B : Type} (f : A -> B) (xs : list A) (i : Z) :
  getitem (map f xs) i = (x <- getitem xs i ;; Ok (f x)).
Proof.
  unfold getitem. rewrite length_map.
  destruct (_ <? 0); [reflexivity|].
  rewrite nth_error_map. destruct (nth_error xs _); reflexivity.
Qed.

Lemma require_ok {A : Type} (o : option A) (a : A) :
  require o = Ok a -> o = Some a.
Proof. destruct o; simpl; congruence. Qed.

Lemma skipn_nth_error {A : Type} (xs : list A) (k : nat) (x : A) :
  nth_error xs k = Some x -> skipn k xs = x :: skipn (S k) xs.
Proof.
  revert k. induction xs as [|y ys IH]; intros [|k] H; simpl in *;
    try discriminate.
  - now injection H as ->.
  - apply IH, H.
Qed.

Lemma last_cons {A : Type} (x : A) (xs : list A) (d : A) :
  last (x :: xs) d = last xs x.
Proof.
  revert x d. induction xs as [|y ys IH]; intros x d; [reflexivity|].
  change (last (x :: y :: ys) d) with (last (y :: ys) d).
  now rewrite (IH y d), (IH y x).
Qed.

(** ** Loops over a range, by invariant *)

Section RangeLoop.

Context {S : Type} (body : Z -> S -> result S) (Inv : nat -> S -> Prop).
Variables (s0 : S) (n : nat).
Hypothesis Hinit : Inv 0%nat s0.

(** Partial correctness: every round that returns keeps the invariant. *)
Lemma for_each_range_inv :
  (forall k s s', (k < n)%nat -> Inv k s ->
                  body (Z.of_nat k) s = Ok s' -> Inv (Datatypes.S k) s') ->
  forall s, for_each (range (Z.of_nat n)) s0 body = Ok s -> Inv n s.
Proof.
  intros Hstep.
  assert (H : forall k, (k <= n)%nat ->
            forall s, for_each (range (Z.of_nat k)) s0 body = Ok s -> Inv k s).
  { induction k as [|k IH]; intros Hk s Hrun.
    - simpl in Hrun. injection Hrun as <-. exact Hinit.
    - rewrite range_succ, for_each_app in Hrun.
      destruct (for_each (range (Z.of_nat k)) s0 body) as [s1|e] eqn:Hk1;
        simpl in Hrun; [|discriminate].
      destruct (body (Z.of_nat k) s1) as [s2|e] eqn:Hb; simpl in Hrun;
        [|discriminate].
      injection Hrun as <-.
      apply (Hstep k s1 s2); [lia|apply IH; [lia|reflexivity]|exact Hb]. }
  apply H. lia.
Qed.

(** Total correctness: when every round returns, so does the loop. *)
Lemma for_each_range_ok :
  (forall k s, (k < n)%nat -> Inv k s ->
               exists s', body (Z.of_nat k) s = Ok s'
                          /\ Inv (Datatypes.S k) s') ->
  exists s, for_each (range (Z.of_nat n)) s0 body = Ok s /\ Inv n s.
Proof.
  intros Hstep.
  assert (H : forall k, (k <= n)%nat ->
            exists s, for_each (range (Z.of_nat k)) s0 body = Ok s /\ Inv k s).
  { induction k as [|k IH]; intros Hk.
    - exists s0. split; [reflexivity|exact Hinit].
    - destruct IH as (s1 & Hrun & Hinv); [lia|].
      destruct (Hstep k s1 ltac:(lia) Hinv) as (s2 & Hb & Hinv2).
      exists s2. rewrite range_succ, for_each_app, Hrun. simpl.
      rewrite Hb. split; [reflexivity|exact Hinv2]. }
  apply H. lia.
Qed.

End RangeLoop.

(** ** The convolution block *)

Lemma window_check_ok (x : Tensor) (k : Z * Z) :
  fst k <= height (get_shape x) -> snd k <= width (get_shape x) ->
  window_check x k = Ok tt.
Proof.
  intros Hh Hw. unfold window_check.
  apply Z.leb_le in Hh, Hw. now rewrite Hh, Hw.
Qed.

Lemma window_check_inv (x : Tensor) (k : Z * Z) (u : unit) :
  window_check x k = Ok u ->
  fst k <= height (get_shape x) /\ snd k <= width (get_shape x).
Proof.
  unfold window_check.
  destruct (Z.leb_spec (fst k) (height (get_shape x)));
    destruct (Z.leb_spec (snd k) (width (get_shape x)));
    simpl; intros Hok; try discriminate; auto.
Qed.

Lemma conv_chain_shape sc act wd (n_filters : list Z) (x : Tensor) :
  get_shape
    (fold_left
       (fun net F =>
          tf_utils.complete_conv2d sc net F (3, 3) VALID (Some act) bias_init
                                   wd)
       n_filters x)
  = mkShape (batch (get_shape x))
            (height (get_shape x) - 2 * Z.of_nat (List.length n_filters))
            (width (get_shape x) - 2 * Z.of_nat (List.length n_filters))
            (last n_filters (channels (get_shape x))).
Proof.
  revert x. induction n_filters as [|F fs IH]; intros x.
  - cbn [fold_left List.length last]. change (Z.of_nat 0) with 0.
    rewrite Z.mul_0_r, !Z.sub_0_r. destruct (get_shape x); reflexivity.
  - cbn [fold_left]. rewrite IH.
    unfold tf_utils.complete_conv2d.
    cbn [get_shape window_extent fst snd batch height width channels].
    rewrite !Z.div_1_r.
    rewrite last_cons.
    cbn [List.length]. f_equal; lia.
Qed.

(** The chain of convolutions of a block returns exactly when each 3x3
    window fits, and then returns the chain. *)
Lemma conv_chain_iff sc act wd (n_filters : list Z) (x net : Tensor) :
  for_each n_filters x
    (fun F net =>
       _ <- window_check net (3, 3) ;;
       Ok (tf_utils.complete_conv2d sc net F (3, 3) VALID (Some act)
                                    bias_init wd))
  = Ok net
  <-> net = fold_left
              (fun net F =>
                 tf_utils.complete_conv2d sc net F (3, 3) VALID (Some act)
                                          bias_init wd)
              n_filters x
      /\ (n_filters <> [] ->
          2 * Z.of_nat (List.length n_filters) + 1 <= height (get_shape x)
          /\ 2 * Z.of_nat (List.length n_filters) + 1 <= width (get_shape x)).
Proof.
  revert x. induction n_filters as [|F fs IH]; intros x.
  - cbn [for_each fold_left]. split.
    + intros H. injection H as <-. split; [reflexivity|congruence].
    + intros [-> _]. reflexivity.
  - cbn [for_each fold_left List.length].
    set (conv := tf_utils.complete_conv2d sc x F (3, 3) VALID (Some act)
                                          bias_init wd).
    assert (Hconv : height (get_shape conv) = height (get_shape x) - 2
                    /\ width (get_shape conv) = width (get_shape x) - 2).
    { unfold conv, tf_utils.complete_conv2d.
      cbn [get_shape window_extent fst snd height width].
      rewrite !Z.div_1_r. lia. }
    destruct Hconv as [Hh Hw]. split.
    + destruct (window_check x (3, 3)) as [u|e] eqn:Hcheck; [|discriminate].
      apply window_check_inv in Hcheck. cbn [fst snd] in Hcheck.
      cbn [bind]. fold conv. intros Hrun. apply IH in Hrun.
      destruct Hrun as [-> Hfits]. split; [reflexivity|]. intros _.
      destruct fs as [|G gs]; [cbn [List.length]; lia|].
      specialize (Hfits ltac:(discriminate)). lia.
    + intros [-> Hfits]. specialize (Hfits ltac:(discriminate)).
      rewrite window_check_ok by (cbn [fst snd]; lia). cbn [bind]. fold conv.
      apply IH. split; [reflexivity|]. intros Hne.
      destruct fs as [|G gs]; [contradiction|]. cbn [List.length] in *. lia.
Qed.

(** [conv_conv_pool] returns exactly when the framework accepts its
    convolutions and its pooling, and then returns the graph of the
    block. *)
Lemma conv_conv_pool_iff sc x n_filters name pool act wd kp r :
  conv_conv_pool sc x n_filters name pool act wd kp = Ok r
  <-> r = conv_block sc x n_filters name pool act wd
      /\ block_fits x (List.length n_filters) pool.
Proof.
  unfold conv_conv_pool, conv_block, block_fits.
  set (sc' := variable_scope sc (format "layer_" name)).
  set (net := fold_left _ n_filters x).
  assert (Hnet : get_shape net
                 = mkShape (batch (get_shape x))
                     (height (get_shape x)
                      - 2 * Z.of_nat (List.length n_filters))
                     (width (get_shape x)
                      - 2 * Z.of_nat (List.length n_filters))
                     (last n_filters (channels (get_shape x))))
    by apply conv_chain_shape.
  assert (Hlen : n_filters <> [] <-> List.length n_filters <> 0%nat).
  { destruct n_filters; simpl; split; congruence. }
  split.
  - destruct (for_each n_filters x _) as [net'|e] eqn:Hchain; [|discriminate].
    apply conv_chain_iff in Hchain. destruct Hchain as [-> Hfits].
    fold sc' net. cbn [bind]. destruct pool; cbn [negb].
    + destruct (window_check net (2, 2)) as [u|e] eqn:Hcheck; [|discriminate].
      apply window_check_inv in Hcheck. rewrite Hnet in Hcheck.
      cbn [fst snd height width bind] in *. intros H. injection H as <-.
      split; [reflexivity|]. split; [tauto|]. intros _. lia.
    + intros H. injection H as <-. split; [reflexivity|].
      split; [tauto|discriminate].
  - intros [-> [Hconv Hpool]].
    replace (for_each n_filters x _) with (@Ok Tensor net)
      by (symmetry; apply conv_chain_iff; split; [reflexivity|tauto]).
    cbn [bind]. destruct pool; cbn [negb]; [|reflexivity].
    specialize (Hpool eq_refl).
    rewrite window_check_ok by (rewrite Hnet; cbn [fst snd height width]; lia).
    reflexivity.
Qed.

Lemma conv_conv_pool_runs sc x n_filters name pool act wd kp :
  block_fits x (List.length n_filters) pool ->
  conv_conv_pool sc x n_filters name pool act wd kp
  = Ok (conv_block sc x n_filters name pool act wd).
Proof. intros H. apply conv_conv_pool_iff. auto. Qed.

(** Shapes of the graph of a block. *)
Lemma conv_block_shapes sc x n_filters name pool act wd :
  let s := get_shape x in
  let k := Z.of_nat (List.length n_filters) in
  let block := conv_block sc x n_filters name pool act wd in
  get_shape (fst block)
  = mkShape (batch s) (height s - 2 * k) (width s - 2 * k)
            (last n_filters (channels s))
  /\ option_map get_shape (snd block)
     = (if pool
        then Some (mkShape (batch s) ((height s - 2 * k) / 2)
                           ((width s - 2 * k) / 2)
                           (last n_filters (channels s)))
        else None).
Proof.
  intros s k block. unfold block, conv_block.
  destruct pool; cbn [negb fst snd option_map]; split;
    try reflexivity; try apply conv_chain_shape.
  cbn [get_shape window_extent fst snd]. rewrite conv_chain_shape.
  cbn [batch height width channels]. fold s k.
  assert (Hhalf : forall h, (h - 2) / 2 + 1 = h / 2).
  { intros h. replace (h - 2) with (h + (-1) * 2) by lia.
    rewrite Z.div_add by lia. lia. }
  now rewrite !Hhalf.
Qed.

(** The blocks of the module have two convolutions. *)
Lemma block_fits_two x pool :
  block_fits x 2 pool
  <-> 5 <= height (get_shape x) /\ 5 <= width (get_shape x)
      /\ (pool = true ->
          6 <= height (get_shape x) /\ 6 <= width (get_shape x)).
Proof.
  unfold block_fits. change (Z.of_nat 2) with 2. split.
  - intros [Hconv Hpool]. specialize (Hconv ltac:(discriminate)).
    repeat split; try lia; apply Hpool in H; lia.
  - intros (Hh & Hw & Hpool). split; [intros _; lia|].
    intros H. apply Hpool in H. lia.
Qed.

(** ** The input branch *)

Lemma level_of_features sc fbc P wd i x :
  exists conv, fst (level_of sc fbc P wd i x) = Some conv.
Proof. unfold level_of, conv_block. destruct (pools_at P i); simpl; eauto. Qed.

Lemma level_of_pooled sc fbc P wd i x :
  pools_at P i = true ->
  exists pool, snd (level_of sc fbc P wd i x) = Some pool.
Proof. intros H. unfold level_of, conv_block. rewrite H. simpl. eauto. Qed.


Lemma level_of_features_any_count sc fbc P P' wd i x :
  fst (level_of sc fbc P wd i x) = fst (level_of sc fbc P' wd i x).
Proof.
  unfold level_of, conv_block.
  destruct (pools_at P i), (pools_at P' i); reflexivity.
Qed.

Lemma level_of_shapes sc fbc P wd i x :
  exists conv,
    fst (level_of sc fbc P wd i x) = Some conv
    /\ get_shape conv
       = mkShape (batch (get_shape x)) (height (get_shape x) - 4)
                 (width (get_shape x) - 4) (fbc * 2 ^ i)
    /\ forall pool, snd (level_of sc fbc P wd i x) = Some pool ->
         get_shape pool
         = mkShape (batch (get_shape x)) ((height (get_shape x) - 4) / 2)
                   ((width (get_shape x) - 4) / 2) (fbc * 2 ^ i).
Proof.
  pose proof (conv_block_shapes
                sc x [fbc * pow2 i; fbc * pow2 i]
                (format "conv_pool_" (str i)) (pools_at P i) elu wd)
    as [Hconv Hpool].
  cbv zeta in Hconv, Hpool. cbn [List.length last] in Hconv, Hpool.
  change (2 * Z.of_nat 2) with 4 in Hconv, Hpool. unfold pow2 in Hconv, Hpool.
  unfold level_of.
  destruct (conv_block sc x [fbc * pow2 i; fbc * pow2 i]
                       (format "conv_pool_" (str i)) (pools_at P i) elu wd)
    as [conv pool'] eqn:Hblock.
  unfold pow2 in Hblock. rewrite Hblock in Hconv, Hpool.
  cbn [fst snd] in *.
  exists conv. split; [reflexivity|]. split; [exact Hconv|].
  intros pool ->. cbn [option_map] in Hpool.
  destruct (pools_at P i); [now injection Hpool|discriminate].
Qed.

(** The previous pool is the pooled output of the last level built. *)
Lemma previous_pool_iff (levels : list Level) (x : Tensor) :
  previous_pool levels = Ok x
  <-> exists prev,
        nth_error levels (Nat.pred (List.length levels)) = Some prev
        /\ snd prev = Some x /\ levels <> [].
Proof.
  unfold previous_pool. split.
  - destruct (getitem levels (-1)) as [prev|e] eqn:Hget; [|discriminate].
    apply getitem_last_ok in Hget. destruct Hget as [Hnth Hne].
    cbn [bind]. intros Hreq. apply require_ok in Hreq. eauto.
  - intros (prev & Hnth & Hsnd & Hne).
    rewrite (getitem_last levels prev Hnth Hne). cbn [bind].
    now rewrite Hsnd.
Qed.

(** One round of the loop at an index below [P + 1]: the level input is
    the input of the branch or the previous pool, and the level is pooled
    at the first index and below the last one. *)
Lemma input_level_eq sc input fbc P wd (k : nat) levels :
  Z.of_nat k < P + 1 ->
  input_level sc input fbc (P + 1) wd (Z.of_nat k) levels
  = (x <- (if Nat.eqb k 0 then Ok input else previous_pool levels) ;;
     block <- conv_conv_pool sc x
                [fbc * pow2 (Z.of_nat k); fbc * pow2 (Z.of_nat k)]
                (format "conv_pool_" (str (Z.of_nat k)))
                (pools_at P (Z.of_nat k)) elu wd None ;;
     Ok (levels ++ [(Some (fst block), snd block)])).
Proof.
  intros Hk. unfold input_level, pools_at.
  replace (P + 1 - 1) with P by lia.
  destruct k as [|k].
  - cbn [Z.of_nat Z.eqb Nat.eqb orb bind].
    destruct (conv_conv_pool _ _ _ _ _ _ _ _) as [[conv pool]|e]; reflexivity.
  - replace (Z.of_nat (S k) =? 0) with false by (symmetry; apply Z.eqb_neq; lia).
    cbn [Nat.eqb orb].
    destruct (previous_pool levels) as [x|e]; cbn [bind];
      destruct (Z.ltb_spec (Z.of_nat (S k)) P) as [Hlt|Hge];
      try reflexivity.
    + destruct (conv_conv_pool _ _ _ _ _ _ _ _) as [[conv pool]|e];
        reflexivity.
    + replace (Z.of_nat (S k) =? P) with true by (symmetry; apply Z.eqb_eq; lia).
      destruct (conv_conv_pool _ _ _ _ _ _ _ _) as [[conv pool]|e];
        reflexivity.
    + replace (Z.of_nat (S k) =? P) with true by (symmetry; apply Z.eqb_eq; lia).
      reflexivity.
Qed.

Lemma level_of_block sc fbc P wd i x :
  level_of sc fbc P wd i x
  = (Some (fst (conv_block sc x [fbc * pow2 i; fbc * pow2 i]
                           (format "conv_pool_" (str i)) (pools_at P i) elu
                           wd)),
     snd (conv_block sc x [fbc * pow2 i; fbc * pow2 i]
                     (format "conv_pool_" (str i)) (pools_at P i) elu wd)).
Proof. unfold level_of. destruct (conv_block _ _ _ _ _ _ _); reflexivity. Qed.

(** A round that returns has appended the level of its index. *)
Lemma input_level_ok sc input fbc P wd (k : nat) levels levels' :
  Z.of_nat k < P + 1 ->
  input_level sc input fbc (P + 1) wd (Z.of_nat k) levels = Ok levels' ->
  exists x,
    levels' = levels ++ [level_of sc fbc P wd (Z.of_nat k) x]
    /\ block_fits x 2 (pools_at P (Z.of_nat k))
    /\ (k = 0%nat -> x = input)
    /\ (k <> 0%nat -> previous_pool levels = Ok x).
Proof.
  intros Hk. rewrite input_level_eq by exact Hk. intros Hrun.
  destruct (if Nat.eqb k 0 then Ok input else previous_pool levels)
    as [x|e] eqn:Hx; [|discriminate].
  cbn [bind] in Hrun.
  destruct (conv_conv_pool _ _ _ _ _ _ _ _) as [block|e] eqn:Hblock;
    [|discriminate].
  apply conv_conv_pool_iff in Hblock. destruct Hblock as [-> Hfits].
  cbn [bind] in Hrun. injection Hrun as <-.
  exists x. rewrite level_of_block. split; [reflexivity|].
  split; [exact Hfits|].
  destruct k; cbn [Nat.eqb] in Hx.
  - split; [intros _; congruence|contradiction].
  - split; [discriminate|intros _; exact Hx].
Qed.

(** A round returns when the framework accepts the block of its level. *)
Lemma input_level_runs sc input fbc P wd (k : nat) levels x :
  Z.of_nat k < P + 1 ->
  (if Nat.eqb k 0 then Ok input else previous_pool levels) = Ok x ->
  block_fits x 2 (pools_at P (Z.of_nat k)) ->
  input_level sc input fbc (P + 1) wd (Z.of_nat k) levels
  = Ok (levels ++ [level_of sc fbc P wd (Z.of_nat k) x]).
Proof.
  intros Hk Hx Hfits. rewrite input_level_eq by exact Hk.
  rewrite Hx. cbn [bind].
  rewrite conv_conv_pool_runs by exact Hfits. cbn [bind].
  now rewrite level_of_block.
Qed.

Lemma input_levels_built_nil sc input fbc P wd :
  input_levels_built sc input fbc P wd [].
Proof. intros i Hi. simpl in Hi. lia. Qed.

Lemma input_levels_built_snoc sc input fbc P wd levels x :
  input_levels_built sc input fbc P wd levels ->
  block_fits x 2 (pools_at P (Z.of_nat (List.length levels))) ->
  (List.length levels = 0%nat -> x = input) ->
  (List.length levels <> 0%nat -> previous_pool levels = Ok x) ->
  input_levels_built sc input fbc P wd
    (levels ++ [level_of sc fbc P wd (Z.of_nat (List.length levels)) x]).
Proof.
  intros Hinv Hfits H0 Hprev i Hi.
  rewrite length_app in Hi. simpl in Hi.
  destruct (Nat.eq_dec i (List.length levels)) as [->|Hne].
  - exists x. rewrite nth_error_app2, Nat.sub_diag by lia.
    split; [reflexivity|]. split; [exact Hfits|]. split; [exact H0|].
    intros Hpos. pose proof (Hprev Hpos) as Hpp.
    apply previous_pool_iff in Hpp.
    destruct Hpp as (prev & Hnth & Hsnd & _).
    exists prev. split; [|exact Hsnd].
    rewrite nth_error_app1 by lia. exact Hnth.
  - destruct (Hinv i ltac:(lia)) as (y & Hnth & Hyfits & Hy0 & Hyprev).
    exists y. rewrite nth_error_app1 by lia.
    split; [exact Hnth|]. split; [exact Hyfits|]. split; [exact Hy0|].
    intros Hpos. destruct (Hyprev Hpos) as (prev & Hp & Hsnd).
    exists prev. split; [|exact Hsnd].
    rewrite nth_error_app1 by lia. exact Hp.
Qed.

(** Whenever [build_input_branch] returns, for a pooling count [P >= 0],
    it returns [P + 1] levels, each built from the input or from the
    previous pool. *)
Lemma build_input_branch_ok sc input fbc P name wd levels :
  0 <= P ->
  build_input_branch sc input fbc P name wd = Ok levels ->
  Z.of_nat (List.length levels) = P + 1
  /\ input_levels_built (variable_scope sc name) input fbc P wd levels.
Proof.
  intros HP. unfold build_input_branch.
  rewrite <- (Z2Nat.id (P + 1)) at 1 by lia. intros Hrun.
  apply (for_each_range_inv _
           (fun k ls => List.length ls = k
                        /\ input_levels_built (variable_scope sc name) input
                                              fbc P wd ls))
    in Hrun.
  - destruct Hrun as [Hlen Hinv]. split; [lia|exact Hinv].
  - split; [reflexivity|apply input_levels_built_nil].
  - intros k ls ls' Hk [Hlen Hinv] Hstep. subst k.
    apply input_level_ok in Hstep; [|lia].
    destruct Hstep as (x & -> & Hfits & Hx0 & Hxprev).
    split; [rewrite length_app; simpl; lia|].
    apply input_levels_built_snoc; assumption.
Qed.

Lemma pow2_double (n : Z) : 0 < n -> 2 ^ n = 2 * 2 ^ (n - 1).
Proof.
  intros Hn. replace n with (Z.succ (n - 1)) at 1 by lia.
  apply Z.pow_succ_r. lia.
Qed.

Lemma half_lower_bound (e r : Z) : 2 * r + 4 <= e -> r <= (e - 4) / 2.
Proof. intros H. apply Z.div_le_lower_bound; lia. Qed.

(** [build_input_branch] returns on an input that leaves room for its
    poolings. *)
Lemma build_input_branch_runs sc input fbc P name wd :
  0 <= P ->
  min_extent P <= height (get_shape input) ->
  min_extent P <= width (get_shape input) ->
  exists levels, build_input_branch sc input fbc P name wd = Ok levels.
Proof.
  intros HP Hh Hw. unfold min_extent in Hh, Hw.
  unfold build_input_branch.
  replace (range (P + 1)) with (range (Z.of_nat (Z.to_nat (P + 1))))
    by (now rewrite Z2Nat.id by lia).
  set (sc' := variable_scope sc name).
  destruct (for_each_range_ok
              (input_level sc' input fbc (P + 1) wd)
              (fun k ls =>
                 List.length ls = k
                 /\ (k <> 0%nat -> Z.of_nat k <= P ->
                     exists x,
                       previous_pool ls = Ok x
                       /\ 9 * 2 ^ (P - Z.of_nat k) - 4 <= height (get_shape x)
                       /\ 9 * 2 ^ (P - Z.of_nat k) - 4 <= width (get_shape x)))
              [] (Z.to_nat (P + 1)))
    as (levels & Hrun & _); [| |eauto].
  - split; [reflexivity|contradiction].
  - intros k ls Hk [Hlen Hroom].
    assert (Hx : exists x,
               (if Nat.eqb k 0 then Ok input else previous_pool ls) = Ok x
               /\ 9 * 2 ^ (P - Z.of_nat k) - 4 <= height (get_shape x)
               /\ 9 * 2 ^ (P - Z.of_nat k) - 4 <= width (get_shape x)
               /\ (k = 0%nat -> 6 <= height (get_shape x)
                                /\ 6 <= width (get_shape x))).
    { destruct k as [|k].
      - exists input. cbn [Nat.eqb Z.of_nat]. rewrite Z.sub_0_r.
        repeat split; lia.
      - destruct (Hroom ltac:(discriminate) ltac:(lia)) as (x & Hx & Hxh & Hxw).
        exists x. cbn [Nat.eqb]. repeat split; try assumption; discriminate. }
    destruct Hx as (x & Hx & Hxh & Hxw & Hx0).
    assert (Hpow : 1 <= 2 ^ (P - Z.of_nat k))
      by (pose proof (Z.pow_pos_nonneg 2 (P - Z.of_nat k)); lia).
    assert (Hfits : block_fits x 2 (pools_at P (Z.of_nat k))).
    { apply block_fits_two. split; [lia|]. split; [lia|].
      unfold pools_at. intros Hpool. apply orb_true_iff in Hpool.
      destruct Hpool as [H0|Hlt].
      - apply Z.eqb_eq in H0. apply Hx0. lia.
      - apply Z.ltb_lt in Hlt.
        rewrite (pow2_double (P - Z.of_nat k)) in Hxh, Hxw by lia.
        pose proof (Z.pow_pos_nonneg 2 (P - Z.of_nat k - 1)). lia. }
    eexists. split.
    + apply input_level_runs; [lia|exact Hx|exact Hfits].
    + split; [rewrite length_app; simpl; lia|].
      intros _ Hle.
      destruct (level_of_pooled sc' fbc P wd (Z.of_nat k) x) as (pool & Hpool).
      { unfold pools_at. apply orb_true_iff. right. apply Z.ltb_lt. lia. }
      destruct (level_of_shapes sc' fbc P wd (Z.of_nat k) x)
        as (conv & _ & _ & Hshape).
      specialize (Hshape pool Hpool).
      exists pool. split.
      * apply previous_pool_iff. eexists. split; [|split].
        -- rewrite length_app, Nat.add_1_r. cbn [Nat.pred].
           rewrite nth_error_app2, Nat.sub_diag by lia. reflexivity.
        -- exact Hpool.
        -- destruct ls; discriminate.
      * rewrite Hshape. cbn [height width].
        rewrite (pow2_double (P - Z.of_nat k)) in Hxh, Hxw by lia.
        replace (P - Z.of_nat (S k)) with (P - Z.of_nat k - 1) by lia.
        split; apply half_lower_bound; lia.
Qed.

Lemma input_levels_built_pyramid sc input fbc P wd levels :
  input_levels_built sc input fbc P wd levels -> pyramid levels.
Proof.
  intros Hinv. apply Forall_forall. intros l Hin.
  destruct (In_nth_error _ _ Hin) as (i & Hi).
  assert (Hlt : (i < List.length levels)%nat).
  { apply nth_error_Some. rewrite Hi. discriminate. }
  destruct (Hinv i Hlt) as (x & Hnth & _).
  rewrite Hi in Hnth. injection Hnth as ->. apply level_of_features.
Qed.




(** C2.  With a pooling count of 0 the branch has a single level, which is
    both the first and the last one (index [P = 0]); the code builds it by
    the first-level path, with pooling enabled: whenever the call
    returns, the pooled component of that level is the max-pooling of its
    features, not [None]; and the call returns on every input of height
    and width 6 at least. *)
Theorem build_input_branch_single_level_is_pooled sc input fbc name wd :
  let conv :=
    fst (conv_block (variable_scope sc name) input
                    [fbc * pow2 0; fbc * pow2 0] "conv_pool_0" true elu wd) in
  let level :=
    (Some conv, Some (max_pooling2d conv (2, 2) (2, 2) "pool_conv_pool_0")) in
  (forall levels,
      build_input_branch sc input fbc 0 name wd = Ok levels ->
      levels = [level])
  /\ (6 <= height (get_shape input) -> 6 <= width (get_shape input) ->
      build_input_branch sc input fbc 0 name wd = Ok [level]).
Proof.
  intros conv level.
  assert (Hstep : build_input_branch sc input fbc 0 name wd
                  = input_level (variable_scope sc name) input fbc (0 + 1) wd
                                (Z.of_nat 0) []).
  { unfold build_input_branch. change (range (0 + 1)) with [0].
    cbn [for_each Z.of_nat].
    destruct (input_level _ _ _ _ _ _ _); reflexivity. }
  rewrite Hstep. split.
  - intros levels Hrun. apply input_level_ok in Hrun; [|lia].
    destruct Hrun as (x & -> & _ & Hx & _). rewrite (Hx eq_refl).
    reflexivity.
  - intros Hh Hw.
    rewrite (input_level_runs _ _ _ 0 _ 0 [] input); [reflexivity|lia|reflexivity|].
    apply block_fits_two. repeat split; lia.
Qed.

(** The image of the scenario with no pooling asked for: one level, pooled. *)
Lemma build_input_branch_single_level_is_pooled_witness :
  exists conv,
    build_input_branch [] scenario_image 8 0 "branch_image" None
    = Ok [(Some conv,
           Some (max_pooling2d conv (2, 2) (2, 2) "pool_conv_pool_0"))].
Proof.
  eexists.
  apply (proj2 (build_input_branch_single_level_is_pooled
                  [] scenario_image 8 "branch_image" None));
    vm_compute; discriminate.
Defined.

(** Two branches over one input, the second with at least as many
    poolings, level by level. *)
Lemma input_levels_agree sc input fbc P P' wd levels levels' :
  input_levels_built sc input fbc P wd levels ->
  input_levels_built sc input fbc P' wd levels' ->
  Z.of_nat (List.length levels) = P + 1 ->
  Z.of_nat (List.length levels') = P' + 1 ->
  P <= P' ->
  forall i : nat, (i < List.length levels)%nat ->
    exists l l',
      nth_error levels i = Some l /\ nth_error levels' i = Some l'
      /\ fst l = fst l' /\ (Z.of_nat i < P -> l = l').
Proof.
  intros Hinv Hinv' Hlen Hlen' Hle.
  induction i as [|j IH]; intros Hi.
  - destruct (Hinv 0%nat Hi) as (x & Hl & _ & Hx & _).
    destruct (Hinv' 0%nat ltac:(lia)) as (x' & Hl' & _ & Hx' & _).
    rewrite (Hx eq_refl) in Hl. rewrite (Hx' eq_refl) in Hl'.
    eexists _, _. split; [exact Hl|]. split; [exact Hl'|]. split.
    + apply level_of_features_any_count.
    + intros H0. unfold level_of, pools_at. reflexivity.
  - destruct (IH ltac:(lia)) as (p & p' & Hp & Hp' & _ & Hsame).
    specialize (Hsame ltac:(lia)). subst p'.
    destruct (Hinv (S j) Hi) as (x & Hl & _ & _ & Hprev).
    destruct (Hinv' (S j) ltac:(lia)) as (x' & Hl' & _ & _ & Hprev').
    destruct (Hprev ltac:(discriminate)) as (q & Hq & Hqx).
    destruct (Hprev' ltac:(discriminate)) as (q' & Hq' & Hqx').
    cbn [Nat.pred] in Hq, Hq'. rewrite Hp in Hq. rewrite Hp' in Hq'.
    injection Hq as <-. injection Hq' as <-.
    assert (x' = x) by congruence. subst x'.
    eexists _, _. split; [exact Hl|]. split; [exact Hl'|]. split.
    + apply level_of_features_any_count.
    + intros Hlt. unfold level_of, pools_at.
      replace (Z.of_nat (S j) <? P) with true by (symmetry; apply Z.ltb_lt; lia).
      replace (Z.of_nat (S j) <? P') with true by (symmetry; apply Z.ltb_lt; lia).
      reflexivity.
Qed.




(** ** The convolution block on an empty list *)




(** ** The common part *)

Lemma concat_check_ok (a b : Tensor) :
  batch (get_shape a) = batch (get_shape b) ->
  height (get_shape a) = height (get_shape b) ->
  width (get_shape a) = width (get_shape b) ->
  concat_check a b = Ok tt.
Proof.
  intros Hb Hh Hw. unfold concat_check.
  now rewrite Hb, Hh, Hw, !Z.eqb_refl.
Qed.

Lemma concat_check_inv (a b : Tensor) (u : unit) :
  concat_check a b = Ok u ->
  batch (get_shape a) = batch (get_shape b)
  /\ height (get_shape a) = height (get_shape b)
  /\ width (get_shape a) = width (get_shape b).
Proof.
  unfold concat_check.
  destruct (Z.eqb_spec (batch (get_shape a)) (batch (get_shape b)));
    destruct (Z.eqb_spec (height (get_shape a)) (height (get_shape b)));
    destruct (Z.eqb_spec (width (get_shape a)) (width (get_shape b)));
    simpl; intros Hok; try discriminate; auto.
Qed.

(** A round of [build_common_part] reads the features of the two levels
    and nothing else. *)
Lemma common_level_reads_features sc (a b : list Level) fbc wd i levels :
  common_level sc a b fbc wd i levels
  = (feat_a <- getitem (map fst a) i ;;
     feat_b <- getitem (map fst b) i ;;
     conv_a <- require feat_a ;;
     conv_b <- require feat_b ;;
     _ <- concat_check conv_a conv_b ;;
     block <- conv_conv_pool sc
                (concat conv_a conv_b (format "concat_a_b_" (str i)))
                [fbc * pow2 i; fbc * pow2 i]
                (format "concat_a_b_conv" (str i)) false elu wd None ;;
     Ok (levels ++ [fst block])).
Proof.
  unfold common_level. rewrite !getitem_map. unfold Level in *.
  destruct (getitem a i) as [la|]; [|reflexivity].
  destruct (getitem b i) as [lb|]; [|reflexivity].
  cbn [bind].
  destruct (require (fst la)) as [ca|]; [|reflexivity].
  destruct (require (fst lb)) as [cb|]; [|reflexivity].
  cbn [bind].
  destruct (concat_check ca cb); [|reflexivity]. cbn [bind].
  destruct (conv_conv_pool _ _ _ _ _ _ _ _) as [[conv pool]|]; reflexivity.
Qed.

Lemma getitem_map_ok {A B : Type} (f : A -> B) (xs : list A) (i : nat) (y : B) :
  getitem (map f xs) (Z.of_nat i) = Ok y ->
  exists x, nth_error xs i = Some x /\ f x = y.
Proof.
  intros H. apply getitem_ok in H. rewrite nth_error_map in H.
  destruct (nth_error xs i) as [x|]; [|discriminate].
  injection H as <-. eauto.
Qed.

(** A round of [build_common_part] that returns has appended the fused
    tensor of its level. *)
Lemma common_level_ok sc (a b : list Level) fbc wd (i : nat) levels levels' :
  common_level sc a b fbc wd (Z.of_nat i) levels = Ok levels' ->
  exists la lb conv_a conv_b,
    nth_error a i = Some la /\ fst la = Some conv_a
    /\ nth_error b i = Some lb /\ fst lb = Some conv_b
    /\ levels' = levels ++ [fused_level sc fbc wd (Z.of_nat i) conv_a conv_b].
Proof.
  rewrite common_level_reads_features. intros H.
  destruct (getitem (map fst a) (Z.of_nat i)) as [fa|] eqn:Ha;
    [|discriminate].
  destruct (getitem (map fst b) (Z.of_nat i)) as [fb|] eqn:Hb;
    [|discriminate].
  cbn [bind] in H.
  destruct (require fa) as [ca|] eqn:Hca; [|discriminate].
  destruct (require fb) as [cb|] eqn:Hcb; [|discriminate].
  cbn [bind] in H.
  destruct (concat_check ca cb); [|discriminate]. cbn [bind] in H.
  destruct (conv_conv_pool _ _ _ _ _ _ _ _) as [block|] eqn:Hblock;
    [|discriminate].
  apply conv_conv_pool_iff in Hblock. destruct Hblock as [-> _].
  cbn [bind] in H. injection H as <-.
  apply getitem_map_ok in Ha, Hb.
  destruct Ha as (la & Hla & <-). destruct Hb as (lb & Hlb & <-).
  apply require_ok in Hca, Hcb.
  exists la, lb, ca, cb. repeat split; assumption.
Qed.

(** A round of [build_common_part] returns on two levels that can be
    fused. *)
Lemma common_level_runs sc (a b : list Level) fbc wd (i : nat) levels
      (la lb : Level) :
  nth_error a i = Some la -> nth_error b i = Some lb ->
  fusable_levels la lb ->
  exists t, common_level sc a b fbc wd (Z.of_nat i) levels = Ok (levels ++ [t]).
Proof.
  intros Ha Hb (ca & cb & Hca & Hcb & Hbatch & Hh & Hw & Hh5 & Hw5).
  rewrite common_level_reads_features.
  rewrite (getitem_of_nat (map fst a) i (fst la) (map_nth_error fst i a Ha)).
  rewrite (getitem_of_nat (map fst b) i (fst lb) (map_nth_error fst i b Hb)).
  cbn [bind]. rewrite Hca, Hcb. cbn [require bind].
  rewrite concat_check_ok by assumption. cbn [bind].
  rewrite conv_conv_pool_runs.
  - cbn [bind]. eauto.
  - apply block_fits_two. cbn [get_shape height width].
    repeat split; try lia; discriminate.
Qed.

Lemma fused_levels_built_snoc sc a b fbc wd levels la lb conv_a conv_b :
  fused_levels_built sc a b fbc wd levels ->
  nth_error a (List.length levels) = Some la -> fst la = Some conv_a ->
  nth_error b (List.length levels) = Some lb -> fst lb = Some conv_b ->
  fused_levels_built sc a b fbc wd
    (levels ++ [fused_level sc fbc wd (Z.of_nat (List.length levels))
                            conv_a conv_b]).
Proof.
  intros Hinv Ha Hca Hb Hcb i t Hnth.
  destruct (Nat.lt_ge_cases i (List.length levels)) as [Hlt|Hge].
  - rewrite nth_error_app1 in Hnth by exact Hlt. apply Hinv, Hnth.
  - rewrite nth_error_app2 in Hnth by exact Hge.
    destruct (i - List.length levels)%nat as [|j] eqn:Hj.
    + assert (i = List.length levels) by lia. subst i.
      simpl in Hnth. injection Hnth as <-.
      exists la, lb, conv_a, conv_b. auto.
    + simpl in Hnth. destruct j; discriminate.
Qed.

(** Whenever [build_common_part] returns, it returns one fused tensor per
    level of the two branches, each built from the features of the two
    branches at its index. *)
Lemma build_common_part_ok sc a b fbc name wd levels :
  build_common_part sc a b fbc name wd = Ok levels ->
  List.length levels = List.length a
  /\ List.length levels = List.length b
  /\ fused_levels_built (variable_scope sc name) a b fbc wd levels.
Proof.
  unfold build_common_part.
  destruct (Nat.eqb_spec (List.length a) (List.length b)) as [Heq|];
    simpl; [|discriminate].
  intros Hrun.
  apply (for_each_range_inv _
           (fun k ls => List.length ls = k
                        /\ fused_levels_built (variable_scope sc name) a b
                                              fbc wd ls)) in Hrun.
  - destruct Hrun as [Hlen Hbuilt]. repeat split; [lia|lia|exact Hbuilt].
  - split; [reflexivity|]. intros i t Hnth. destruct i; discriminate.
  - intros k ls ls' _ [Hlen Hinv] Hb.
    destruct (common_level_ok _ _ _ _ _ _ _ _ Hb)
      as (la & lb & ca & cb & Ha & Hca & Hlb & Hcb & ->).
    split; [rewrite length_app; simpl; lia|].
    subst k. eapply fused_levels_built_snoc; eauto.
Qed.

(** [build_common_part] returns on branches that can be fused level by
    level. *)
Lemma build_common_part_runs sc a b fbc name wd :
  fusable a b ->
  exists levels, build_common_part sc a b fbc name wd = Ok levels.
Proof.
  intros Hfus. unfold build_common_part.
  pose proof (Forall2_length Hfus) as Hlen.
  rewrite Hlen, Nat.eqb_refl. simpl. rewrite <- Hlen.
  destruct (for_each_range_ok
              (common_level (variable_scope sc name) a b fbc wd)
              (fun k ls => List.length ls = k) [] (List.length a) eq_refl)
    as (levels & Hrun & _); [|eauto].
  intros k ls Hk Hls.
  destruct (nth_error a k) as [la|] eqn:Ha;
    [|apply nth_error_None in Ha; lia].
  destruct (nth_error b k) as [lb|] eqn:Hb;
    [|apply nth_error_None in Hb; lia].
  assert (Hlevels : fusable_levels la lb).
  { clear - Hfus Ha Hb. revert k Ha Hb.
    induction Hfus as [|x y xs ys Hxy _ IH]; intros [|k] Ha Hb;
      simpl in *; try discriminate.
    - now injection Ha as <-; injection Hb as <-.
    - eapply IH; eassumption. }
  destruct (common_level_runs (variable_scope sc name) a b fbc wd k ls la lb
                              Ha Hb Hlevels) as (t & Ht).
  eexists. split; [exact Ht|]. rewrite length_app. simpl. lia.
Qed.





Lemma fused_level_shape sc fbc wd i conv_a conv_b :
  get_shape (fused_level sc fbc wd i conv_a conv_b)
  = mkShape (batch (get_shape conv_a))
            (height (get_shape conv_a) - 4)
            (width (get_shape conv_a) - 4)
            (fbc * 2 ^ i).
Proof.
  unfold fused_level, conv_block, tf_utils.complete_conv2d, pow2.
  cbn [fold_left negb fst snd get_shape window_extent batch height width
       channels].
  rewrite !Z.div_1_r. f_equal; lia.
Qed.

(** C6, as the code has it.  For every level index [i], the fused tensor
    that [build_common_part] returns at level [i] is the output of the
    convolution block applied to the concatenation, so its channel count
    is the block's feature count, [feature_base_count * 2^i]. *)
Theorem fused_level_channels sc a b fbc name wd levels (i : nat) t :
  build_common_part sc a b fbc name wd = Ok levels ->
  nth_error levels i = Some t ->
  channels (get_shape t) = fbc * 2 ^ Z.of_nat i.
Proof.
  intros Hrun Hnth.
  destruct (build_common_part_ok _ _ _ _ _ _ _ Hrun) as (_ & _ & Hbuilt).
  destruct (Hbuilt i t Hnth) as (la & lb & ca & cb & _ & _ & _ & _ & ->).
  rewrite fused_level_shape. reflexivity.
Qed.

(** Level 1 of the scenario's common part has [8 * 2^1] channels. *)
Lemma fused_level_channels_witness :
  build_common_part [] scenario_image_levels scenario_poly_map_levels 8
                    "common_part" None = Ok scenario_common_levels
  /\ nth_error scenario_common_levels 1
     = Some (nth 1 scenario_common_levels scenario_image)
  /\ channels (get_shape (nth 1 scenario_common_levels scenario_image))
     = 8 * 2 ^ Z.of_nat 1.
Proof.
  split; [reflexivity|]. split; [reflexivity|].
  apply (fused_level_channels
           [] scenario_image_levels scenario_poly_map_levels 8 "common_part"
           None scenario_common_levels 1
           (nth 1 scenario_common_levels scenario_image));
    reflexivity.
Defined.

(** C6, as stated, fails in the scenario: the fused tensor of level 1 has
    16 channels, [8 * 2^1], and not [2 * 8 * 2^1 = 32]; the doubled count
    is that of the concatenation the block consumes. *)
Lemma fused_level_channels_not_doubled :
  exists levels t,
    build_common_part [] scenario_image_levels scenario_poly_map_levels 8
                      "common_part" None = Ok levels
    /\ nth_error levels 1 = Some t
    /\ channels (get_shape t) = 16
    /\ channels (get_shape t) <> 2 * 8 * 2 ^ 1.
Proof.
  exists scenario_common_levels, (nth 1 scenario_common_levels scenario_image).
  repeat split; try reflexivity. vm_compute. discriminate.
Qed.

(** ** The output branch *)

Lemma upsample_crop_concat_extent sc prev level size wd name :
  height (get_shape (upsample_crop_concat sc prev level size wd name))
  = height (get_shape prev) * fst size
  /\ width (get_shape (upsample_crop_concat sc prev level size wd name))
     = width (get_shape prev) * snd size.
Proof.
  destruct size as [H_multi W_multi].
  unfold upsample_crop_concat, tf_utils.complete_conv2d.
  cbn [get_shape window_extent fst snd batch height width channels].
  rewrite !Z.div_1_r. lia.
Qed.

(** A round of the decoder below the coarsest level returns exactly when
    the output it upsamples is 3x3 at least, and then adds the decoder
    output of its level. *)
Lemma output_level_iff sc levels fbc wd (k : nat) prev outs level st :
  nth_error levels k = Some level ->
  output_level sc levels fbc wd (Z.of_nat k) (Some prev, outs) = Ok st
  <-> st = (Some (final_conv sc fbc wd (Z.of_nat k) prev level),
            final_conv sc fbc wd (Z.of_nat k) prev level :: outs)
      /\ 3 <= height (get_shape prev) /\ 3 <= width (get_shape prev).
Proof.
  intros Hlevel. unfold output_level.
  rewrite (getitem_of_nat levels k level Hlevel). cbn [bind].
  set (up := upsample_crop_concat sc prev level (2, 2) wd
                                  (format "up_" (str (Z.of_nat k)))).
  assert (Hfits : block_fits up 2 false
                  <-> 3 <= height (get_shape prev)
                      /\ 3 <= width (get_shape prev)).
  { rewrite block_fits_two.
    destruct (upsample_crop_concat_extent sc prev level (2, 2) wd
                (format "up_" (str (Z.of_nat k)))) as [Hh Hw].
    fold up in Hh, Hw. rewrite Hh, Hw. cbn [fst snd].
    split; [intros (? & ? & _); lia|].
    intros [? ?]. repeat split; try lia; discriminate. }
  split.
  - destruct (conv_conv_pool sc up _ _ _ _ _ _) as [block|] eqn:Hblock;
      [|discriminate].
    apply conv_conv_pool_iff in Hblock. destruct Hblock as [-> Hblock].
    cbn [bind]. destruct (conv_block _ _ _ _ _ _ _) as [conv pool] eqn:Hb.
    intros H. injection H as <-. split; [|apply Hfits, Hblock].
    unfold final_conv. fold up. rewrite Hb. reflexivity.
  - intros [-> Hprev]. rewrite conv_conv_pool_runs by (apply Hfits, Hprev).
    cbn [bind]. unfold final_conv. fold up.
    destruct (conv_block _ _ _ _ _ _ _); reflexivity.
Qed.

(** The rounds of the loop of [build_output_branch] below the coarsest
    level: entered at index [k - 1] with the outputs of the levels from
    [k] on, they return exactly when the levels below [k] fit, and leave
    the outputs of all levels. *)
Lemma output_rounds_iff sc finer coarsest fbc wd (k : nat) st :
  (k <= List.length finer)%nat ->
  let outputs_from j :=
    decoder_outputs sc fbc wd (Z.of_nat j) (skipn j finer) coarsest in
  for_each (range_down (Z.of_nat k))
           (Some (hd coarsest (outputs_from k)), outputs_from k)
           (output_level sc (finer ++ [coarsest]) fbc wd)
  = Ok st
  <-> st = (Some (hd coarsest (outputs_from 0%nat)), outputs_from 0%nat)
      /\ forall j : nat, (j < k)%nat ->
           3 <= height (get_shape (hd coarsest (outputs_from (S j))))
           /\ 3 <= width (get_shape (hd coarsest (outputs_from (S j)))).
Proof.
  intros Hk outputs_from. induction k as [|k IH].
  - cbn [range_down range Z.to_nat Z.of_nat seq map rev for_each]. split.
    + intros H. injection H as <-. split; [reflexivity|]. intros j Hj. lia.
    + intros [-> _]. reflexivity.
  - rewrite range_down_succ. cbn [for_each].
    destruct (nth_error finer k) as [level|] eqn:Hlevel;
      [|apply nth_error_None in Hlevel; lia].
    assert (Hnth : nth_error (finer ++ [coarsest]) k = Some level)
      by (rewrite nth_error_app1 by lia; exact Hlevel).
    assert (Hfrom : outputs_from k
                    = final_conv sc fbc wd (Z.of_nat k)
                                 (hd coarsest (outputs_from (S k))) level
                      :: outputs_from (S k)).
    { unfold outputs_from. rewrite (skipn_nth_error finer k level Hlevel).
      cbn [decoder_outputs].
      replace (Z.of_nat k + 1) with (Z.of_nat (S k)) by lia. reflexivity. }
    specialize (IH ltac:(lia)).
    split.
    + destruct (output_level sc (finer ++ [coarsest]) fbc wd (Z.of_nat k) _)
        as [st1|] eqn:Hst1; [|discriminate].
      apply (output_level_iff sc (finer ++ [coarsest]) fbc wd k _ _ level st1
                              Hnth) in Hst1.
      destruct Hst1 as [-> Hprev].
      cbn [bind]. rewrite <- Hfrom.
      replace (Some (final_conv sc fbc wd (Z.of_nat k)
                                (hd coarsest (outputs_from (S k))) level))
        with (Some (hd coarsest (outputs_from k)))
        by (rewrite Hfrom; reflexivity).
      intros Hrun. apply IH in Hrun. destruct Hrun as [-> Hbelow].
      split; [reflexivity|]. intros j Hj.
      destruct (Nat.eq_dec j k) as [->|Hne]; [exact Hprev|].
      apply Hbelow. lia.
    + intros [-> Hbelow].
      replace (output_level sc (finer ++ [coarsest]) fbc wd (Z.of_nat k) _)
        with (@Ok (option Tensor * list Tensor)
                  (Some (hd coarsest (outputs_from k)), outputs_from k)).
      * cbn [bind]. apply IH. split; [reflexivity|].
        intros j Hj. apply Hbelow. lia.
      * symmetry.
        apply (output_level_iff sc (finer ++ [coarsest]) fbc wd k _ _ level _
                                Hnth).
        split; [|apply Hbelow; lia]. rewrite Hfrom. reflexivity.
Qed.

(** All the rounds below the coarsest level. *)
Lemma decoder_rounds_iff sc finer coarsest fbc wd st :
  for_each (range_down (Z.of_nat (List.length finer))) (Some coarsest, [])
           (output_level sc (finer ++ [coarsest]) fbc wd)
  = Ok st
  <-> st = (Some (hd coarsest (decoder_outputs sc fbc wd 0 finer coarsest)),
            decoder_outputs sc fbc wd 0 finer coarsest)
      /\ decoder_fits sc fbc wd finer coarsest.
Proof.
  pose proof (output_rounds_iff sc finer coarsest fbc wd
                                (List.length finer) st (Nat.le_refl _)) as H.
  cbv beta zeta in H. rewrite skipn_all, skipn_O in H.
  cbn [decoder_outputs hd] in H. exact H.
Qed.

(** [build_output_branch] returns exactly when the framework accepts the
    decoder, and then computes the decoder of the specification. *)
Lemma build_output_branch_iff sc finer coarsest fbc name wd outputs :
  build_output_branch sc (finer ++ [coarsest]) fbc name wd = Ok outputs
  <-> outputs
      = decoder_outputs (variable_scope sc name) fbc wd 0 finer coarsest
      /\ decoder_fits (variable_scope sc name) fbc wd finer coarsest.
Proof.
  set (sc' := variable_scope sc name).
  unfold build_output_branch. fold sc'.
  rewrite length_app, Nat.add_1_r, range_down_succ. cbn [for_each].
  unfold output_level at 1.
  rewrite (getitem_of_nat (finer ++ [coarsest]) (List.length finer) coarsest)
    by (rewrite nth_error_app2, Nat.sub_diag by lia; reflexivity).
  cbn [bind].
  destruct (for_each _ _ _) as [st|e] eqn:Hst.
  - apply decoder_rounds_iff in Hst. destruct Hst as [-> Hfits].
    cbn [bind]. split.
    + intros H. injection H as <-. split; [reflexivity|exact Hfits].
    + intros [-> _]. reflexivity.
  - cbn [bind]. split; [discriminate|].
    intros [_ Hfits].
    assert (Hok : for_each (range_down (Z.of_nat (List.length finer)))
                           (Some coarsest, [])
                           (output_level sc' (finer ++ [coarsest]) fbc wd)
                  = Ok (Some (hd coarsest
                                 (decoder_outputs sc' fbc wd 0 finer coarsest)),
                        decoder_outputs sc' fbc wd 0 finer coarsest))
      by (apply decoder_rounds_iff; split; [reflexivity|exact Hfits]).
    rewrite Hst in Hok. discriminate.
Qed.

Lemma decoder_outputs_length sc fbc wd i finer coarsest :
  List.length (decoder_outputs sc fbc wd i finer coarsest) = List.length finer.
Proof.
  revert i. induction finer as [|level finer IH]; intros i; simpl;
    [reflexivity|]. now rewrite IH.
Qed.



(** The output at index [i] is built at level [i], from the level of the
    pyramid at that index and the output one level coarser. *)
Lemma decoder_outputs_nth sc fbc wd (k : Z) finer coarsest (i : nat) out :
  nth_error (decoder_outputs sc fbc wd k finer coarsest) i = Some out ->
  exists level prev,
    nth_error finer i = Some level
    /\ nth_error (decoder_outputs sc fbc wd k finer coarsest ++ [coarsest])
                 (S i) = Some prev
    /\ out = final_conv sc fbc wd (k + Z.of_nat i) prev level.
Proof.
  revert k i. induction finer as [|level finer IH]; intros k i Hnth.
  - destruct i; discriminate.
  - cbn [decoder_outputs] in *. destruct i as [|i].
    + simpl in Hnth. injection Hnth as <-.
      exists level, (hd coarsest (decoder_outputs sc fbc wd (k + 1) finer coarsest)).
      split; [reflexivity|]. split.
      * simpl. destruct (decoder_outputs sc fbc wd (k + 1) finer coarsest);
          reflexivity.
      * now rewrite Z.add_0_r.
    + simpl in Hnth. destruct (IH (k + 1) i Hnth) as (lv & prev & Hl & Hp & ->).
      exists lv, prev. split; [exact Hl|]. split; [exact Hp|].
      f_equal. lia.
Qed.

Lemma final_conv_shape sc fbc wd i prev level :
  get_shape (final_conv sc fbc wd i prev level)
  = mkShape (batch (get_shape prev)) (2 * height (get_shape prev) - 4)
            (2 * width (get_shape prev) - 4) (fbc * 2 ^ i).
Proof.
  unfold final_conv.
  destruct (conv_block_shapes
              sc (upsample_crop_concat sc prev level (2, 2) wd
                                       (format "up_" (str i)))
              [fbc * pow2 i; fbc * pow2 i] (format "final_conv_" (str i))
              false elu wd) as [Hshape _].
  cbv zeta in Hshape. rewrite Hshape.
  destruct (upsample_crop_concat_extent sc prev level (2, 2) wd
              (format "up_" (str i))) as [Hh Hw].
  rewrite Hh, Hw.
  unfold upsample_crop_concat, tf_utils.complete_conv2d.
  cbn [get_shape batch height width channels fst snd List.length last].
  unfold pow2. f_equal; lia.
Qed.

(** The shape of the head of the decoder outputs does not depend on the
    variable scope. *)
Lemma decoder_head_shape_scope sc sc' fbc wd i finer coarsest :
  get_shape (hd coarsest (decoder_outputs sc fbc wd i finer coarsest))
  = get_shape (hd coarsest (decoder_outputs sc' fbc wd i finer coarsest)).
Proof.
  revert i. induction finer as [|level finer IH]; intros i; [reflexivity|].
  cbn [decoder_outputs hd]. rewrite !final_conv_shape, (IH (i + 1)).
  reflexivity.
Qed.

Lemma decoder_fits_scope sc sc' fbc wd finer coarsest :
  decoder_fits sc fbc wd finer coarsest ->
  decoder_fits sc' fbc wd finer coarsest.
Proof.
  intros Hfits j Hj. specialize (Hfits j Hj). cbv zeta in *.
  now rewrite (decoder_head_shape_scope sc' sc).
Qed.

(** From a coarsest level of 4x4 at least, every decoder output is 4x4 at
    least, and the decoder fits. *)
Lemma decoder_head_extent sc fbc wd i finer coarsest :
  4 <= height (get_shape coarsest) -> 4 <= width (get_shape coarsest) ->
  4 <= height (get_shape (hd coarsest
                             (decoder_outputs sc fbc wd i finer coarsest)))
  /\ 4 <= width (get_shape (hd coarsest
                              (decoder_outputs sc fbc wd i finer coarsest))).
Proof.
  intros Hh Hw. revert i.
  induction finer as [|level finer IH]; intros i; [simpl; lia|].
  cbn [decoder_outputs hd]. rewrite final_conv_shape. cbn [height width].
  specialize (IH (i + 1)). lia.
Qed.

Lemma decoder_fits_from_coarsest sc fbc wd finer coarsest :
  4 <= height (get_shape coarsest) -> 4 <= width (get_shape coarsest) ->
  decoder_fits sc fbc wd finer coarsest.
Proof.
  intros Hh Hw j Hj. cbv zeta.
  pose proof (decoder_head_extent sc fbc wd (Z.of_nat (S j))
                                  (skipn (S j) finer) coarsest Hh Hw).
  lia.
Qed.

(** An empty list of levels gives no decoder output. *)
Lemma build_output_branch_nil sc fbc name wd :
  build_output_branch sc [] fbc name wd = Ok [].
Proof. reflexivity. Qed.




(** ** The prediction branches *)

(** The rounds of the loop of [build_pred_branches] above level 0. *)
Lemma pred_rounds sc oc act resolution o0 (items : list (Z * Tensor)) outs :
  Forall (fun item => fst item <> 0) items ->
  for_each items (outs, o0, Some resolution) (pred_level sc oc act)
  = Ok (outs ++ map (upsampled_pred sc oc act resolution) items, o0,
        Some resolution).
Proof.
  revert outs. induction items as [|[i input] items IH]; intros outs Hpos.
  - simpl. now rewrite app_nil_r.
  - inversion Hpos as [|? ? Hi Hrest]; subst. simpl in Hi.
    cbn [for_each]. unfold pred_level at 1.
    apply Z.eqb_neq in Hi. rewrite Hi. cbn [require bind].
    rewrite IH by exact Hrest.
    rewrite <- app_assoc. reflexivity.
Qed.

Lemma enumerate_cons {A : Type} (x : A) (xs : list A) :
  enumerate (x :: xs)
  = (0, x) :: combine (map Z.of_nat (seq 1 (List.length xs))) xs.
Proof. reflexivity. Qed.

Lemma enumerate_tail_positive {A : Type} (xs : list A) (k : nat) :
  Forall (fun item : Z * A => fst item <> 0)
         (combine (map Z.of_nat (seq (S k) (List.length xs))) xs).
Proof.
  revert k. induction xs as [|x xs IH]; intros k; simpl; constructor.
  - simpl. lia.
  - apply IH.
Qed.

Lemma enumerate_tail_nth {A : Type} (xs : list A) (k i : nat) (x : A) :
  nth_error xs i = Some x ->
  nth_error (combine (map Z.of_nat (seq k (List.length xs))) xs) i
  = Some (Z.of_nat (k + i), x).
Proof.
  revert k i. induction xs as [|y ys IH]; intros k [|i] H; simpl in *;
    try discriminate.
  - injection H as ->. now rewrite Nat.add_0_r.
  - rewrite (IH (S k) i H). do 3 f_equal. lia.
Qed.

Lemma enumerate_tail_length {A : Type} (xs : list A) (k : nat) :
  List.length (combine (map Z.of_nat (seq k (List.length xs))) xs)
  = List.length xs.
Proof. rewrite length_combine, length_map, length_seq. lia. Qed.

(** What [build_pred_branches] returns on a non-empty list of levels. *)
Lemma build_pred_branches_cons sc first rest oc act name :
  let sc' := variable_scope sc name in
  let pred0 := pred_conv sc' oc act 0 first in
  build_pred_branches sc (first :: rest) oc act name
  = Ok (Some pred0,
        stacked
          (pred0 :: map (upsampled_pred sc' oc act (resolution_of pred0))
                        (combine (map Z.of_nat (seq 1 (List.length rest)))
                                 rest))
          1 "stacked_preds").
Proof.
  intros sc' pred0. unfold build_pred_branches.
  rewrite enumerate_cons. cbn [for_each]. unfold pred_level at 1.
  cbn [Z.eqb bind app]. fold sc'.
  change (conv2d sc' first oc (1, 1) (format "pred_conv1x1_level_" (str 0))
                 act VALID) with pred0.
  change (height (get_shape pred0), width (get_shape pred0))
    with (resolution_of pred0).
  rewrite pred_rounds by apply enumerate_tail_positive.
  reflexivity.
Qed.

Lemma upsampled_pred_resolution sc oc act resolution item :
  resolution_of (upsampled_pred sc oc act resolution item) = resolution.
Proof. destruct item as [i input], resolution as [h w]. reflexivity. Qed.

Lemma pred_conv_shape sc oc act i input :
  get_shape (pred_conv sc oc act i input)
  = mkShape (batch (get_shape input)) (height (get_shape input))
            (width (get_shape input)) oc.
Proof.
  unfold pred_conv.
  cbn [get_shape window_extent fst snd]. rewrite !Z.div_1_r.
  f_equal; lia.
Qed.

(** C7.  For every non-empty list of decoder levels, [build_pred_branches]
    returns the level-0 prediction and a stack of one prediction per input
    level: the level axis of the stack is as long as the input list; the
    stack starts with the level-0 prediction; the prediction of a level
    [i > 0] is its 1x1 convolution, resized bilinearly to [2^i] times the
    height and width of the level, then cropped or padded to the height
    and width of the level-0 prediction; and every stacked prediction has
    the height and width of the level-0 prediction. *)
Theorem build_pred_branches_stack sc input_levels oc act name :
  input_levels <> [] ->
  exists pred0 stack,
    build_pred_branches sc input_levels oc act name = Ok (Some pred0, stack)
    /\ List.length (unstack stack) = List.length input_levels
    /\ nth_error (stacked_shape stack) 1
       = Some (Z.of_nat (List.length input_levels))
    /\ nth_error (unstack stack) 0 = Some pred0
    /\ (forall (i : nat) input, i <> 0%nat ->
        nth_error input_levels i = Some input ->
        nth_error (unstack stack) i
        = Some (resize_image_with_crop_or_pad
                  (resize_bilinear
                     (pred_conv (variable_scope sc name) oc act (Z.of_nat i)
                                input)
                     (height (get_shape input) * 2 ^ Z.of_nat i,
                      width (get_shape input) * 2 ^ Z.of_nat i)
                     (format "upsample_"
                             (format "convert_disp_pred_"
                                     (str (Z.of_nat i)))))
                  (height (get_shape pred0)) (width (get_shape pred0))))
    /\ Forall (fun pred => resolution_of pred = resolution_of pred0)
              (unstack stack)
    /\ stacked_shape stack
       = [batch (get_shape pred0); Z.of_nat (List.length input_levels);
          height (get_shape pred0); width (get_shape pred0); oc].
Proof.
  intros Hne. destruct input_levels as [|first rest]; [contradiction|].
  eexists _, _. split; [apply build_pred_branches_cons|].
  cbn [unstack]. repeat split.
  - cbn [List.length]. now rewrite length_map, enumerate_tail_length.
  - unfold stacked_shape. cbn [unstack nth_error List.length].
    now rewrite length_map, enumerate_tail_length.
  - intros [|i] input Hi Hnth; [contradiction|]. cbn [nth_error] in *.
    rewrite nth_error_map, (enumerate_tail_nth rest 1 i input Hnth).
    cbn [option_map Nat.add]. unfold upsampled_pred, upsample_crop, pow2.
    rewrite pred_conv_shape. reflexivity.
  - constructor; [reflexivity|].
    apply Forall_map, Forall_forall. intros item _.
    apply upsampled_pred_resolution.
  - unfold stacked_shape. cbn [unstack List.length].
    now rewrite length_map, enumerate_tail_length.
Qed.

(** Prediction branches over the three fused levels of the scenario. *)
Lemma build_pred_branches_stack_witness :
  scenario_common_levels <> []
  /\ exists pred0 stack,
       build_pred_branches [] scenario_common_levels 2 tanh "branch_disp_pred"
       = Ok (Some pred0, stack)
       /\ List.length (unstack stack) = List.length scenario_common_levels
       /\ Forall (fun pred => resolution_of pred = resolution_of pred0)
                 (unstack stack).
Proof.
  split; [discriminate|].
  destruct (build_pred_branches_stack
              [] scenario_common_levels 2 tanh "branch_disp_pred")
    as (pred0 & stack & Hrun & Hlen & _ & _ & _ & Hres & _);
    [discriminate|].
  exists pred0, stack. auto.
Defined.

(** No prediction can be stacked when there is no level. *)
Lemma build_pred_branches_nil sc oc act name :
  build_pred_branches sc [] oc act name
  = Raise (IndexError "list index out of range").
Proof. reflexivity. Qed.


(** ** The double U-Net *)

(** C9.  The keep-probability placeholder that [build_double_unet] creates
    is returned as it is and wired into no layer: for every configuration
    and any two placeholders, the construction has the same outcome and
    the four prediction outputs are the same graph nodes; and the
    convolution block ignores the keep probability it can be given. *)
Theorem keep_prob_is_unused kp1 kp2 image poly_map image_fbc poly_map_fbc
        common_fbc P disp_channels add_seg seg_channels wd :
  predicted (build_double_unet kp1 image poly_map image_fbc poly_map_fbc
                               common_fbc P disp_channels add_seg
                               seg_channels wd)
  = predicted (build_double_unet kp2 image poly_map image_fbc poly_map_fbc
                                 common_fbc P disp_channels add_seg
                                 seg_channels wd)
  /\ (forall n,
      build_double_unet kp1 image poly_map image_fbc poly_map_fbc common_fbc
                        P disp_channels add_seg seg_channels wd = Ok n ->
      keep_prob n = kp1)
  /\ (forall sc input_ n_filters name pool activation d1 d2,
      conv_conv_pool sc input_ n_filters name pool activation wd d1
      = conv_conv_pool sc input_ n_filters name pool activation wd d2).
Proof.
  unfold build_double_unet. split; [|split].
  - repeat match goal with
           | |- context [bind ?m _] =>
               destruct m as [?|?]; cbn [bind predicted]
           | |- context [let '(_, _) := ?p in _] => destruct p
           end; reflexivity.
  - repeat match goal with
           | |- context [bind ?m _] => destruct m as [?|?]; cbn [bind]
           | |- context [let '(_, _) := ?p in _] => destruct p
           end; intros n Hn; try discriminate.
    injection Hn as <-. reflexivity.
  - reflexivity.
Qed.

(** Two placeholders, one scenario: the same predictions. *)
Lemma keep_prob_is_unused_witness :
  predicted (build_double_unet (placeholder 0) scenario_image
                               scenario_poly_map 8 8 8 2 2 true 1 None)
  = predicted (build_double_unet (placeholder 1) scenario_image
                                 scenario_poly_map 8 8 8 2 2 true 1 None)
  /\ exists n,
       build_double_unet (placeholder 0) scenario_image scenario_poly_map
                         8 8 8 2 2 true 1 None = Ok n
       /\ keep_prob n = placeholder 0.
Proof.
  destruct (keep_prob_is_unused (placeholder 0) (placeholder 1) scenario_image
                                scenario_poly_map 8 8 8 2 2 true 1 None)
    as (Hsame & Hkeep & _).
  split; [exact Hsame|].
  eexists. split; [reflexivity|]. apply Hkeep. reflexivity.
Defined.

(** Evaluation of a construction on inputs of known shape. *)
Ltac build_on Himage Hpoly :=
  repeat (rewrite ?Himage, ?Hpoly; cbv [Pos.to_nat Pos.iter_op];
          progress cbn).

(** C4, as the code has it.  In the end-to-end scenario -- an image of
    shape (1, 256, 256, 3), a polygon map of shape (1, 256, 256, 1), two
    poolings, base feature counts of 8 -- [build_double_unet] returns a
    level-0 displacement prediction of shape (1, 200, 200,
    disp_output_channels) and a stack of displacement predictions of shape
    (1, 2, 200, 200, disp_output_channels): the decoder gives no output
    for the coarsest of the 3 levels, so 2 predictions are stacked. *)
Theorem scenario_displacement_shapes kp image poly_map disp_channels add_seg
        seg_channels wd :
  get_shape image = mkShape 1 256 256 3 ->
  get_shape poly_map = mkShape 1 256 256 1 ->
  exists n pred0,
    build_double_unet kp image poly_map 8 8 8 2 disp_channels add_seg
                      seg_channels wd = Ok n
    /\ level_0_disp_pred n = Some pred0
    /\ get_shape pred0 = mkShape 1 200 200 disp_channels
    /\ stacked_shape (stacked_disp_preds n)
       = [1; 2; 200; 200; disp_channels].
Proof.
  intros Himage Hpoly.
  unfold build_double_unet, build_input_branch, build_common_part,
    build_output_branch, build_pred_branches.
  change (range (2 + 1)) with [0; 1; 2].
  unfold input_level, common_level, output_level, pred_level, previous_pool,
    conv_conv_pool, window_check, concat_check, upsample_crop_concat,
    upsample_crop, tf_utils.complete_conv2d, stack.
  build_on Himage Hpoly.
  destruct add_seg; build_on Himage Hpoly;
    (eexists _, _; split; [reflexivity|]; split; [reflexivity|];
     cbn; rewrite ?Himage, ?Hpoly; split; reflexivity).
Qed.

(** The scenario on two input handles, with 2 displacement channels. *)
Lemma scenario_displacement_shapes_witness :
  get_shape scenario_image = mkShape 1 256 256 3
  /\ get_shape scenario_poly_map = mkShape 1 256 256 1
  /\ exists n pred0,
       build_double_unet (placeholder 0) scenario_image scenario_poly_map
                         8 8 8 2 2 true 1 None = Ok n
       /\ level_0_disp_pred n = Some pred0
       /\ get_shape pred0 = mkShape 1 200 200 2
       /\ stacked_shape (stacked_disp_preds n) = [1; 2; 200; 200; 2].
Proof.
  split; [reflexivity|]. split; [reflexivity|].
  apply (scenario_displacement_shapes
           (placeholder 0) scenario_image scenario_poly_map 2 true 1 None);
    reflexivity.
Defined.

(** C4, as stated, fails: in the scenario, with 2 displacement channels,
    the level axis of the stacked displacement predictions has length 2,
    so the stack has shape (1, 3, h0, w0, 2) for no [h0] and [w0]. *)
Lemma scenario_stack_is_not_three_levels :
  exists n,
    build_double_unet (placeholder 0) scenario_image scenario_poly_map
                      8 8 8 2 2 true 1 None = Ok n
    /\ nth_error (stacked_shape (stacked_disp_preds n)) 1 = Some 2
    /\ forall h0 w0,
         stacked_shape (stacked_disp_preds n) <> [1; 3; h0; w0; 2].
Proof.
  eexists. split; [reflexivity|]. split; [reflexivity|].
  intros h0 w0 H. vm_compute in H. discriminate.
Qed.

(** * Further properties of the module *)

(** ** Shapes of the building blocks *)

(** X1.  [conv_conv_pool] applies one unpadded 3x3 convolution per entry
    of [n_filters].  It returns exactly when its input has room for them
    and for the pooling: with [k >= 1] entries, height and width
    [2 * k + 1] at least, and [2 * k + 2] at least when pooling is on.
    The features it returns keep the batch size, lose 2 rows and 2
    columns per entry and have as many channels as the last entry asks
    for (those of the input when there is none); the pooled output, when
    requested, halves the extent of the features, rounding down, and is
    absent otherwise. *)
Theorem conv_conv_pool_shapes sc input_ n_filters name pool act wd kp :
  let s := get_shape input_ in
  let k := Z.of_nat (List.length n_filters) in
  (forall conv pooled,
      conv_conv_pool sc input_ n_filters name pool act wd kp
      = Ok (conv, pooled) ->
      get_shape conv
      = mkShape (batch s) (height s - 2 * k) (width s - 2 * k)
                (last n_filters (channels s))
      /\ option_map get_shape pooled
         = (if pool
            then Some (mkShape (batch s) ((height s - 2 * k) / 2)
                               ((width s - 2 * k) / 2)
                               (last n_filters (channels s)))
            else None))
  /\ ((exists block,
          conv_conv_pool sc input_ n_filters name pool act wd kp = Ok block)
      <-> (n_filters <> [] -> 2 * k + 1 <= height s /\ 2 * k + 1 <= width s)
          /\ (pool = true -> 2 * k + 2 <= height s /\ 2 * k + 2 <= width s)).
Proof.
  intros s k. split.
  - intros conv pooled Hrun. apply conv_conv_pool_iff in Hrun.
    destruct Hrun as [Hblock _].
    pose proof (conv_block_shapes sc input_ n_filters name pool act wd)
      as Hshapes.
    cbv zeta in Hshapes. rewrite <- Hblock in Hshapes. exact Hshapes.
  - assert (Hlen : n_filters <> [] <-> List.length n_filters <> 0%nat).
    { destruct n_filters; simpl; split; congruence. }
    split.
    + intros (block & Hrun). apply conv_conv_pool_iff in Hrun.
      destruct Hrun as [_ [Hconv Hpool]]. split; [|exact Hpool].
      intros Hne. apply Hconv, Hlen, Hne.
    + intros [Hconv Hpool]. eexists. apply conv_conv_pool_runs.
      split; [|exact Hpool]. intros Hne. apply Hconv, Hlen, Hne.
Qed.

(** A block of two convolutions, with pooling, on the image of the
    scenario. *)
Lemma conv_conv_pool_shapes_witness :
  exists conv pooled,
    conv_conv_pool [] scenario_image [8; 8] "conv_pool_0" true elu None None
    = Ok (conv, pooled)
    /\ get_shape conv = mkShape 1 252 252 8
    /\ option_map get_shape pooled = Some (mkShape 1 126 126 8).
Proof.
  eexists _, _. split; [reflexivity|].
  apply (proj1 (conv_conv_pool_shapes [] scenario_image [8; 8] "conv_pool_0"
                                      true elu None None)).
  reflexivity.
Defined.


(** [upsample_crop] returns a tensor of exactly the requested resolution,
    with the batch size and channels of its input. *)
Lemma upsample_crop_shape input resolution factor name :
  get_shape (upsample_crop input resolution factor name)
  = mkShape (batch (get_shape input)) (fst resolution) (snd resolution)
            (channels (get_shape input)).
Proof. reflexivity. Qed.

(** ** More on the input branch *)

(** X3.  A negative pooling count is not refused: [build_input_branch]
    then builds nothing and returns the empty list of levels. *)
Theorem build_input_branch_negative sc input fbc P name wd :
  P < 0 -> build_input_branch sc input fbc P name wd = Ok [].
Proof.
  intros HP. unfold build_input_branch, range.
  replace (Z.to_nat (P + 1)) with 0%nat by lia. reflexivity.
Qed.

(** A pooling count below zero: no level. *)
Lemma build_input_branch_negative_witness :
  -1 < 0 /\ build_input_branch [] scenario_image 8 (-1) "branch_image" None
            = Ok [].
Proof.
  split; [lia|].
  apply (build_input_branch_negative [] scenario_image 8 (-1) "branch_image"
                                     None).
  lia.
Defined.

(** The features of the levels built, and what each was built from. *)
Lemma input_levels_built_shapes sc input fbc P wd levels :
  input_levels_built sc input fbc P wd levels ->
  forall (i : nat) conv pool,
    nth_error levels i = Some (Some conv, pool) ->
    exists x,
      get_shape conv
      = mkShape (batch (get_shape x)) (height (get_shape x) - 4)
                (width (get_shape x) - 4) (fbc * 2 ^ Z.of_nat i)
      /\ (i = 0%nat -> x = input)
      /\ (forall (j : nat) prev prev_pool,
          i = S j ->
          nth_error levels j = Some (Some prev, prev_pool) ->
          get_shape x
          = mkShape (batch (get_shape prev))
                    (height (get_shape prev) / 2)
                    (width (get_shape prev) / 2)
                    (channels (get_shape prev))).
Proof.
  intros Hinv i conv pool Hnth.
  assert (Hi : (i < List.length levels)%nat).
  { apply nth_error_Some. rewrite Hnth. discriminate. }
  destruct (Hinv i Hi) as (x & Hlevel & _ & Hx0 & Hxprev).
  rewrite Hnth in Hlevel. injection Hlevel as Hlevel.
  destruct (level_of_shapes sc fbc P wd (Z.of_nat i) x)
    as (conv' & Hfst & Hshape & _).
  rewrite <- Hlevel in Hfst. cbn [fst] in Hfst. injection Hfst as <-.
  exists x. split; [exact Hshape|]. split; [exact Hx0|].
  intros j prev prev_pool -> Hprev.
  destruct (Hxprev ltac:(discriminate)) as (lp & Hlp & Hsnd).
  cbn [Nat.pred] in Hlp. rewrite Hprev in Hlp. injection Hlp as <-.
  cbn [snd] in Hsnd. subst prev_pool.
  assert (Hj : (j < List.length levels)%nat) by lia.
  destruct (Hinv j Hj) as (y & Hy & _).
  rewrite Hprev in Hy. injection Hy as Hy.
  destruct (level_of_shapes sc fbc P wd (Z.of_nat j) y)
    as (prev' & Hfst & Hpshape & Hpool).
  rewrite <- Hy in Hfst, Hpool. cbn [fst snd] in Hfst, Hpool.
  injection Hfst as <-.
  rewrite (Hpool x eq_refl), Hpshape. reflexivity.
Qed.

Lemma input_levels_built_batch sc input fbc P wd levels :
  input_levels_built sc input fbc P wd levels ->
  forall (i : nat) conv pool,
    nth_error levels i = Some (Some conv, pool) ->
    batch (get_shape conv) = batch (get_shape input).
Proof.
  intros Hinv.
  induction i as [|j IH]; intros conv pool Hnth;
    destruct (input_levels_built_shapes _ _ _ _ _ _ Hinv _ conv pool Hnth)
    as (x & Hshape & Hx0 & Hxprev).
  - rewrite Hshape, (Hx0 eq_refl). reflexivity.
  - assert (Hj : (j < List.length levels)%nat).
    { assert (S j < List.length levels)%nat; [|lia].
      apply nth_error_Some. rewrite Hnth. discriminate. }
    destruct (Hinv j Hj) as (y & Hy & _).
    destruct (level_of_shapes sc fbc P wd (Z.of_nat j) y)
      as (prev & Hfst & _).
    destruct (level_of sc fbc P wd (Z.of_nat j) y) as [pc pp] eqn:Hlv.
    cbn [fst] in Hfst. subst pc.
    rewrite Hshape, (Hxprev j prev pp eq_refl Hy). cbn [batch].
    apply (IH prev pp Hy).
Qed.

(** X4.  The encoder pyramid that [build_input_branch] returns, whenever
    it returns: the features of level [i] have [feature_base_count * 2^i]
    channels and the batch size of the input; those of level 0 are 4 rows
    and 4 columns smaller than the input; those of a level [i + 1] have
    half the extent of the features of level [i], rounded down, less 4. *)
Theorem build_input_branch_shapes sc input fbc P name wd levels :
  0 <= P ->
  build_input_branch sc input fbc P name wd = Ok levels ->
  forall (i : nat) conv pool,
    nth_error levels i = Some (Some conv, pool) ->
    channels (get_shape conv) = fbc * 2 ^ Z.of_nat i
    /\ batch (get_shape conv) = batch (get_shape input)
    /\ (i = 0%nat ->
        height (get_shape conv) = height (get_shape input) - 4
        /\ width (get_shape conv) = width (get_shape input) - 4)
    /\ (forall (j : nat) prev prev_pool,
        i = S j -> nth_error levels j = Some (Some prev, prev_pool) ->
        height (get_shape conv) = height (get_shape prev) / 2 - 4
        /\ width (get_shape conv) = width (get_shape prev) / 2 - 4).
Proof.
  intros HP Hrun.
  destruct (build_input_branch_ok _ _ _ _ _ _ _ HP Hrun) as [_ Hinv].
  intros i conv pool Hnth.
  destruct (input_levels_built_shapes _ _ _ _ _ _ Hinv i conv pool Hnth)
    as (x & Hshape & Hx0 & Hxprev).
  split; [now rewrite Hshape|].
  split; [eapply input_levels_built_batch; eassumption|]. split.
  - intros Hi. rewrite Hshape, (Hx0 Hi). split; reflexivity.
  - intros j prev prev_pool Hi Hprev.
    rewrite Hshape, (Hxprev j prev prev_pool Hi Hprev). split; reflexivity.
Qed.

(** Level 1 of the image branch of the scenario. *)
Lemma build_input_branch_shapes_witness :
  exists conv pool,
    nth_error scenario_image_levels 1 = Some (Some conv, pool)
    /\ channels (get_shape conv) = 8 * 2 ^ Z.of_nat 1.
Proof.
  eexists _, _. split; [reflexivity|].
  apply (build_input_branch_shapes [] scenario_image 8 2 "branch_image" None
                                   scenario_image_levels ltac:(lia) eq_refl
                                   1%nat _ _ eq_refl).
Defined.

Lemma block_fits_pooling x k pool pool' :
  (pool = true -> pool' = true) ->
  block_fits x k pool' -> block_fits x k pool.
Proof.
  intros Himp [Hconv Hpool]. split; [exact Hconv|].
  intros H. apply Hpool, Himp, H.
Qed.

Lemma pools_at_deeper P P' i :
  P <= P' -> pools_at P i = true -> pools_at P' i = true.
Proof.
  unfold pools_at. intros Hle H. apply orb_true_iff in H.
  apply orb_true_iff. destruct H as [H|H]; [left; exact H|right].
  apply Z.ltb_lt in H. apply Z.ltb_lt. lia.
Qed.

(** The branch with fewer poolings returns where the deeper one does,
    with the level inputs of the deeper one. *)
Lemma build_input_branch_shallower sc input fbc P P' name wd levels' :
  0 <= P -> P <= P' ->
  build_input_branch sc input fbc P' name wd = Ok levels' ->
  exists levels, build_input_branch sc input fbc P name wd = Ok levels.
Proof.
  intros HP Hle Hrun'.
  assert (HP' : 0 <= P') by lia.
  destruct (build_input_branch_ok _ _ _ _ _ _ _ HP' Hrun') as [Hlen' Hinv'].
  set (sc' := variable_scope sc name) in *.
  unfold build_input_branch. fold sc'.
  replace (range (P + 1)) with (range (Z.of_nat (Z.to_nat (P + 1))))
    by (now rewrite Z2Nat.id by lia).
  destruct (for_each_range_ok
              (input_level sc' input fbc (P + 1) wd)
              (fun k ls =>
                 List.length ls = k
                 /\ forall i : nat, (i < k)%nat ->
                      exists x,
                        nth_error levels' i
                        = Some (level_of sc' fbc P' wd (Z.of_nat i) x)
                        /\ nth_error ls i
                           = Some (level_of sc' fbc P wd (Z.of_nat i) x))
              [] (Z.to_nat (P + 1)))
    as (levels & Hrun & _); [| |eauto].
  - split; [reflexivity|]. intros i Hi. lia.
  - intros k ls Hk [Hlen Hsame].
    destruct (Hinv' k ltac:(lia)) as (x & Hx' & Hfits' & Hx0 & Hxprev).
    assert (Hx : (if Nat.eqb k 0 then Ok input else previous_pool ls) = Ok x).
    { destruct k as [|j]; cbn [Nat.eqb]; [now rewrite (Hx0 eq_refl)|].
      destruct (Hxprev ltac:(discriminate)) as (prev' & Hprev' & Hsnd').
      cbn [Nat.pred] in Hprev'.
      destruct (Hsame j ltac:(lia)) as (y & Hy' & Hy).
      rewrite Hy' in Hprev'. injection Hprev' as <-.
      apply previous_pool_iff. eexists. split; [|split].
      - rewrite Hlen. cbn [Nat.pred]. exact Hy.
      - rewrite <- Hsnd'. unfold level_of, pools_at.
        replace (Z.of_nat j <? P) with true by (symmetry; apply Z.ltb_lt; lia).
        replace (Z.of_nat j <? P') with true by (symmetry; apply Z.ltb_lt; lia).
        reflexivity.
      - destruct ls; [discriminate|discriminate]. }
    assert (Hfits : block_fits x 2 (pools_at P (Z.of_nat k))).
    { eapply block_fits_pooling; [|exact Hfits'].
      apply pools_at_deeper, Hle. }
    eexists. split.
    + apply input_level_runs; [lia|exact Hx|exact Hfits].
    + split; [rewrite length_app; simpl; lia|].
      intros i Hi. destruct (Nat.eq_dec i k) as [->|Hne].
      * exists x. split; [exact Hx'|].
        rewrite nth_error_app2, Hlen, Nat.sub_diag by lia. reflexivity.
      * destruct (Hsame i ltac:(lia)) as (y & Hy' & Hy).
        exists y. split; [exact Hy'|].
        rewrite nth_error_app1 by lia. exact Hy.
Qed.

(** X5.  Asking for more poolings only extends the pyramid: for
    [0 <= P <= P'], wherever the branch with pooling count [P'] is built,
    the branch with the same input and count [P] is built too, and the
    deeper branch starts with its levels -- the features of the first
    [P + 1] levels are the same construction, and so are the pooled
    outputs of the first [P] levels. *)
Theorem build_input_branch_extends sc input fbc P P' name wd levels' :
  0 <= P -> P <= P' ->
  build_input_branch sc input fbc P' name wd = Ok levels' ->
  exists levels,
    build_input_branch sc input fbc P name wd = Ok levels
    /\ map fst levels = map fst (firstn (Z.to_nat (P + 1)) levels')
    /\ firstn (Z.to_nat P) levels = firstn (Z.to_nat P) levels'.
Proof.
  intros HP Hle Hrun'.
  destruct (build_input_branch_shallower sc input fbc P P' name wd levels'
                                         HP Hle Hrun') as (levels & Hrun).
  assert (HP' : 0 <= P') by lia.
  destruct (build_input_branch_ok _ _ _ _ _ _ _ HP Hrun) as [Hlen Hinv].
  destruct (build_input_branch_ok _ _ _ _ _ _ _ HP' Hrun') as [Hlen' Hinv'].
  pose proof (input_levels_agree _ _ _ _ _ _ _ _ Hinv Hinv' Hlen Hlen' Hle)
    as Hagree.
  exists levels. split; [exact Hrun|].
  unfold Level in *. split.
  - apply nth_error_ext. intros i.
    rewrite !nth_error_map, nth_error_firstn.
    destruct (Nat.ltb_spec i (Z.to_nat (P + 1))) as [Hi|Hi].
    + destruct (Hagree i ltac:(lia)) as (l & l' & -> & -> & Hfst & _).
      cbn [option_map]. now rewrite Hfst.
    + rewrite (proj2 (nth_error_None levels i)) by lia. reflexivity.
  - apply nth_error_ext. intros i. rewrite !nth_error_firstn.
    destruct (Nat.ltb_spec i (Z.to_nat P)) as [Hi|Hi]; [|reflexivity].
    destruct (Hagree i ltac:(lia)) as (l & l' & -> & -> & _ & Hsame).
    now rewrite Hsame by lia.
Qed.

(** Three and two poolings on the image of the scenario. *)
Lemma build_input_branch_extends_witness :
  exists levels' levels,
    build_input_branch [] scenario_image 8 3 "branch_image" None = Ok levels'
    /\ build_input_branch [] scenario_image 8 2 "branch_image" None
       = Ok levels
    /\ map fst levels = map fst (firstn (Z.to_nat (2 + 1)) levels')
    /\ firstn (Z.to_nat 2) levels = firstn (Z.to_nat 2) levels'.
Proof.
  eexists.
  destruct (build_input_branch_extends
              [] scenario_image 8 2 3 "branch_image" None _ ltac:(lia)
              ltac:(lia) eq_refl) as (levels & Hrun & Hfeat & Hpool).
  exists levels. split; [reflexivity|]. repeat split; assumption.
Defined.

(** ** More on the common part *)

(** X6.  [build_common_part] fuses the features of the two branches and
    never reads their pooled outputs: two pairs of branches with the same
    features, level by level, get the same outcome, fused tensors or
    error. *)
Theorem build_common_part_ignores_pools sc (a a' b b' : list Level) fbc
        name wd :
  map fst a = map fst a' -> map fst b = map fst b' ->
  build_common_part sc a b fbc name wd
  = build_common_part sc a' b' fbc name wd.
Proof.
  intros Ha Hb. unfold build_common_part.
  assert (Hla : List.length a = List.length a').
  { pose proof (f_equal (@List.length _) Ha) as H.
    now rewrite !length_map in H. }
  assert (Hlb : List.length b = List.length b').
  { pose proof (f_equal (@List.length _) Hb) as H.
    now rewrite !length_map in H. }
  rewrite Hla, Hlb.
  destruct (negb _); [reflexivity|].
  apply for_each_ext. intros i levels.
  now rewrite !common_level_reads_features, Ha, Hb.
Qed.

(** The branches of the scenario, with and without their pooled outputs. *)
Lemma build_common_part_ignores_pools_witness :
  build_common_part [] scenario_image_levels scenario_poly_map_levels 8
                    "common_part" None
  = build_common_part []
      (map (fun l : Level => (fst l, None)) scenario_image_levels)
      (map (fun l : Level => (fst l, None)) scenario_poly_map_levels)
      8 "common_part" None.
Proof.
  apply (build_common_part_ignores_pools
           [] scenario_image_levels
           (map (fun l : Level => (fst l, None)) scenario_image_levels)
           scenario_poly_map_levels
           (map (fun l : Level => (fst l, None)) scenario_poly_map_levels)
           8 "common_part" None); reflexivity.
Defined.

(** X14.  Each fused tensor of [build_common_part] comes from the features
    of the first branch at its level through two unpadded 3x3
    convolutions: it has their batch size and is 4 rows and 4 columns
    smaller. *)
Theorem fused_level_extent sc (a b : list Level) fbc name wd levels
        (i : nat) t :
  build_common_part sc a b fbc name wd = Ok levels ->
  nth_error levels i = Some t ->
  exists conv_a pool_a,
    nth_error a i = Some (Some conv_a, pool_a)
    /\ batch (get_shape t) = batch (get_shape conv_a)
    /\ height (get_shape t) = height (get_shape conv_a) - 4
    /\ width (get_shape t) = width (get_shape conv_a) - 4.
Proof.
  intros Hrun Hnth.
  destruct (build_common_part_ok _ _ _ _ _ _ _ Hrun) as (_ & _ & Hbuilt).
  destruct (Hbuilt i t Hnth)
    as ([fa pa] & lb & ca & cb & Ha & Hca & _ & _ & ->).
  cbn [fst] in Hca. subst fa.
  exists ca, pa. split; [exact Ha|].
  rewrite fused_level_shape. repeat split.
Qed.

(** Level 1 of the common part of the scenario. *)
Lemma fused_level_extent_witness :
  exists conv_a pool_a,
    nth_error scenario_image_levels 1 = Some (Some conv_a, pool_a)
    /\ batch (get_shape (nth 1 scenario_common_levels scenario_image))
       = batch (get_shape conv_a)
    /\ height (get_shape (nth 1 scenario_common_levels scenario_image))
       = height (get_shape conv_a) - 4
    /\ width (get_shape (nth 1 scenario_common_levels scenario_image))
       = width (get_shape conv_a) - 4.
Proof.
  apply (fused_level_extent
           [] scenario_image_levels scenario_poly_map_levels 8 "common_part"
           None scenario_common_levels 1
           (nth 1 scenario_common_levels scenario_image));
    reflexivity.
Defined.

(** ** More on the output branch *)

(** X7.  A pyramid needs two levels for the decoder to produce anything:
    on the empty list and on a single level [build_output_branch] returns
    the empty list of outputs. *)
Theorem build_output_branch_shallow sc input_levels fbc name wd :
  (List.length input_levels <= 1)%nat ->
  build_output_branch sc input_levels fbc name wd = Ok [].
Proof.
  intros Hlen. destruct input_levels as [|coarsest [|level rest]].
  - reflexivity.
  - apply (build_output_branch_iff sc [] coarsest fbc name wd).
    split; [reflexivity|]. intros j Hj. simpl in Hj. lia.
  - simpl in Hlen. lia.
Qed.

(** Only the coarsest level of the scenario. *)
Lemma build_output_branch_shallow_witness :
  (List.length (skipn 2 scenario_common_levels) <= 1)%nat
  /\ build_output_branch [] (skipn 2 scenario_common_levels) 8 "branch_disp"
                         None = Ok [].
Proof.
  split; [vm_compute; lia|].
  apply (build_output_branch_shallow [] (skipn 2 scenario_common_levels) 8
                                     "branch_disp" None).
  vm_compute. lia.
Defined.

(** X8.  Whenever [build_output_branch] returns, the shape of a decoder
    output is set by the output one level coarser (the coarsest fused
    level, for the last output) and by the base feature count: same batch
    size, twice the height and width less 4, and
    [feature_base_count * 2^i] channels at index [i].  The extent of the
    fused level it is merged with plays no part. *)
Theorem build_output_branch_shapes sc finer coarsest fbc name wd outputs :
  build_output_branch sc (finer ++ [coarsest]) fbc name wd = Ok outputs ->
  forall (i : nat) out, nth_error outputs i = Some out ->
    exists prev,
      nth_error (outputs ++ [coarsest]) (S i) = Some prev
      /\ get_shape out
         = mkShape (batch (get_shape prev))
                   (2 * height (get_shape prev) - 4)
                   (2 * width (get_shape prev) - 4)
                   (fbc * 2 ^ Z.of_nat i).
Proof.
  intros Hrun. apply build_output_branch_iff in Hrun.
  destruct Hrun as [-> _]. intros i out Hnth.
  destruct (decoder_outputs_nth _ _ _ _ _ _ _ _ Hnth)
    as (level & prev & _ & Hprev & ->).
  exists prev. split; [exact Hprev|]. apply final_conv_shape.
Qed.

(** The decoder of the scenario: its output at index 1 grows from the
    coarsest fused level. *)
Lemma build_output_branch_shapes_witness :
  exists outputs out prev,
    build_output_branch [] scenario_common_levels 8 "branch_disp" None
    = Ok outputs
    /\ nth_error outputs 1 = Some out
    /\ nth_error scenario_common_levels 2 = Some prev
    /\ get_shape out
       = mkShape (batch (get_shape prev)) (2 * height (get_shape prev) - 4)
                 (2 * width (get_shape prev) - 4) (8 * 2 ^ Z.of_nat 1).
Proof.
  eexists _, _, _. split; [reflexivity|]. split; [reflexivity|].
  split; [reflexivity|].
  destruct (build_output_branch_shapes
              [] (firstn 2 scenario_common_levels)
              (nth 2 scenario_common_levels scenario_image) 8 "branch_disp"
              None _ eq_refl 1%nat _ eq_refl) as (prev & Hprev & Hshape).
  injection Hprev as <-. exact Hshape.
Defined.

(** ** More on the prediction branches *)

(** X9.  The predictions take their resolution from the finest input
    level: on a list of levels starting with [first], the level-0
    prediction and every prediction of the stack have the height and
    width of [first] and [output_channels] channels, so the stack has
    shape (batch, number of levels, height, width, output_channels). *)
Theorem build_pred_branches_shapes sc first rest oc act name :
  exists pred0 stack,
    build_pred_branches sc (first :: rest) oc act name
    = Ok (Some pred0, stack)
    /\ get_shape pred0
       = mkShape (batch (get_shape first)) (height (get_shape first))
                 (width (get_shape first)) oc
    /\ Forall (fun pred =>
                 height (get_shape pred) = height (get_shape first)
                 /\ width (get_shape pred) = width (get_shape first)
                 /\ channels (get_shape pred) = oc)
              (unstack stack)
    /\ stacked_shape stack
       = [batch (get_shape first); Z.of_nat (S (List.length rest));
          height (get_shape first); width (get_shape first); oc].
Proof.
  eexists _, _. split; [apply build_pred_branches_cons|].
  set (pred0 := pred_conv (variable_scope sc name) oc act 0 first).
  assert (Hpred0 : get_shape pred0
                   = mkShape (batch (get_shape first))
                             (height (get_shape first))
                             (width (get_shape first)) oc)
    by apply pred_conv_shape.
  split; [exact Hpred0|]. split.
  - cbn [unstack]. constructor.
    + rewrite Hpred0. auto.
    + apply Forall_map, Forall_forall. intros [i input] _.
      unfold upsampled_pred. rewrite upsample_crop_shape, pred_conv_shape.
      unfold resolution_of. rewrite Hpred0. auto.
  - unfold stacked_shape. cbn [unstack List.length].
    rewrite length_map, enumerate_tail_length, Hpred0. reflexivity.
Qed.

(** ** More on the double U-Net *)

(** The decoder returns in one variable scope where it returns in
    another, with as many outputs. *)
Lemma build_output_branch_scope sc levels fbc name name' wd outputs :
  build_output_branch sc levels fbc name wd = Ok outputs ->
  exists outputs',
    build_output_branch sc levels fbc name' wd = Ok outputs'
    /\ List.length outputs' = List.length outputs.
Proof.
  destruct levels as [|x xs].
  - intros H. injection H as <-. exists []. split; reflexivity.
  - destruct (@exists_last _ (x :: xs) ltac:(discriminate))
      as (finer & coarsest & ->).
    intros Hrun. apply build_output_branch_iff in Hrun.
    destruct Hrun as [-> Hfits]. eexists. split.
    + apply build_output_branch_iff. split; [reflexivity|].
      eapply decoder_fits_scope, Hfits.
    + now rewrite !decoder_outputs_length.
Qed.

(** Whenever the decoder returns, it returns one output per level but the
    coarsest. *)
Lemma build_output_branch_length sc levels fbc name wd outputs :
  build_output_branch sc levels fbc name wd = Ok outputs ->
  List.length outputs = Nat.pred (List.length levels).
Proof.
  destruct levels as [|x xs].
  - intros H. injection H as <-. reflexivity.
  - destruct (@exists_last _ (x :: xs) ltac:(discriminate))
      as (finer & coarsest & ->).
    intros Hrun. apply build_output_branch_iff in Hrun.
    destruct Hrun as [-> _].
    rewrite decoder_outputs_length, length_app. simpl. lia.
Qed.

(** Whenever the encoders and the common part return, for a pooling count
    [P >= 0], the common part has [P + 1] levels. *)
Lemma double_unet_common_length image poly_map image_fbc poly_map_fbc
      common_fbc P wd a b common :
  0 <= P ->
  build_input_branch [] image image_fbc P "branch_image" wd = Ok a ->
  build_input_branch [] poly_map poly_map_fbc P "branch_poly_map" wd = Ok b ->
  build_common_part [] a b common_fbc "common_part" wd = Ok common ->
  Z.of_nat (List.length common) = P + 1.
Proof.
  intros HP Ha Hb Hc.
  destruct (build_input_branch_ok _ _ _ _ _ _ _ HP Ha) as [Hla _].
  destruct (build_common_part_ok _ _ _ _ _ _ _ Hc) as (Hlen & _). lia.
Qed.

(** What [build_double_unet] returns, whenever it returns. *)
Lemma build_double_unet_outputs kp image poly_map image_fbc poly_map_fbc
      common_fbc P disp_channels add_seg seg_channels wd n :
  0 <= P ->
  build_double_unet kp image poly_map image_fbc poly_map_fbc common_fbc P
                    disp_channels add_seg seg_channels wd = Ok n ->
  1 <= P
  /\ (exists pred0,
         level_0_disp_pred n = Some pred0
         /\ nth_error (unstack (stacked_disp_preds n)) 0 = Some pred0)
  /\ Z.of_nat (List.length (unstack (stacked_disp_preds n))) = P
  /\ (if add_seg
      then exists logit0 logits,
          stacked_seg_pred_logits n = Some logits
          /\ nth_error (unstack logits) 0 = Some logit0
          /\ Z.of_nat (List.length (unstack logits)) = P
          /\ level_0_seg_pred n = Some (sigmoid logit0)
      else stacked_seg_pred_logits n = None /\ level_0_seg_pred n = None).
Proof.
  intros HP. unfold build_double_unet.
  destruct (build_input_branch [] image image_fbc P "branch_image" wd)
    as [a|] eqn:Ha; [|discriminate].
  destruct (build_input_branch [] poly_map poly_map_fbc P "branch_poly_map"
                               wd) as [b|] eqn:Hb; [|discriminate].
  cbn [bind].
  destruct (build_common_part [] a b common_fbc "common_part" wd)
    as [common|] eqn:Hc; [|discriminate].
  cbn [bind].
  pose proof (double_unet_common_length _ _ _ _ _ _ _ _ _ _ HP Ha Hb Hc)
    as Hlen.
  destruct (build_output_branch [] common common_fbc "branch_disp" wd)
    as [disp|] eqn:Hdisp; [|discriminate].
  cbn [bind].
  pose proof (build_output_branch_length _ _ _ _ _ _ Hdisp) as Hldisp.
  assert (Hstack : forall (f : Z * Tensor -> Tensor) (k : nat) x outs,
            List.length (x :: outs) = Nat.pred (List.length common) ->
            Z.of_nat
              (S (List.length
                    (map f (combine (map Z.of_nat (seq k (List.length outs)))
                                    outs))))
            = P).
  { intros f k x outs Houts.
    rewrite length_map, length_combine, length_map, length_seq.
    simpl in Houts. lia. }
  destruct add_seg.
  - destruct (build_output_branch [] common common_fbc "branch_seg" wd)
      as [seg|] eqn:Hseg; [|discriminate].
    pose proof (build_output_branch_length _ _ _ _ _ _ Hseg) as Hlseg.
    cbn [bind require].
    destruct disp as [|d0 ds]; [discriminate|].
    destruct seg as [|s0 ss]; [simpl in Hlseg, Hldisp; lia|].
    rewrite !build_pred_branches_cons. cbn [bind require].
    intros H. injection H as <-.
    cbn [level_0_disp_pred stacked_disp_preds stacked_seg_pred_logits
         level_0_seg_pred unstack nth_error List.length].
    split; [simpl in Hldisp; lia|].
    split; [eauto|]. split; [apply (Hstack _ _ d0), Hldisp|].
    eexists _, _. split; [reflexivity|].
    cbn [unstack nth_error List.length]. split; [reflexivity|].
    split; [apply (Hstack _ _ s0), Hlseg|reflexivity].
  - cbn [bind].
    destruct disp as [|d0 ds]; [discriminate|].
    rewrite !build_pred_branches_cons. cbn [bind].
    intros H. injection H as <-.
    cbn [level_0_disp_pred stacked_disp_preds stacked_seg_pred_logits
         level_0_seg_pred unstack nth_error List.length].
    split; [simpl in Hldisp; lia|].
    split; [eauto|]. split; [apply (Hstack _ _ d0), Hldisp|].
    split; reflexivity.
Qed.

(** The extent of the features of each level, from that of the input. *)
Lemma input_levels_built_extents sc input fbc P wd levels :
  input_levels_built sc input fbc P wd levels ->
  forall (i : nat) conv pool,
    nth_error levels i = Some (Some conv, pool) ->
    height (get_shape conv) = level_extent (height (get_shape input)) i - 4
    /\ width (get_shape conv) = level_extent (width (get_shape input)) i - 4.
Proof.
  intros Hinv.
  induction i as [|j IH]; intros conv pool Hnth;
    destruct (input_levels_built_shapes _ _ _ _ _ _ Hinv _ conv pool Hnth)
    as (x & Hshape & Hx0 & Hxprev).
  - rewrite Hshape, (Hx0 eq_refl). split; reflexivity.
  - assert (Hj : (j < List.length levels)%nat).
    { assert (S j < List.length levels)%nat; [|lia].
      apply nth_error_Some. rewrite Hnth. discriminate. }
    destruct (Hinv j Hj) as (y & Hy & _).
    destruct (level_of_shapes sc fbc P wd (Z.of_nat j) y)
      as (prev & Hfst & _).
    destruct (level_of sc fbc P wd (Z.of_nat j) y) as [pc pp] eqn:Hlv.
    cbn [fst] in Hfst. subst pc.
    destruct (IH prev pp Hy) as [Hh Hw].
    rewrite Hshape, (Hxprev j prev pp eq_refl Hy).
    cbn [height width level_extent]. rewrite Hh, Hw. split; reflexivity.
Qed.

Lemma level_extent_bound (c P e : Z) (i : nat) :
  c * 2 ^ P - 4 <= e -> Z.of_nat i <= P ->
  c * 2 ^ (P - Z.of_nat i) - 4 <= level_extent e i.
Proof.
  intros He. induction i as [|j IH]; intros Hi.
  - cbn [level_extent Z.of_nat]. now rewrite Z.sub_0_r.
  - cbn [level_extent]. apply half_lower_bound.
    specialize (IH ltac:(lia)).
    rewrite (pow2_double (P - Z.of_nat j)) in IH by lia.
    replace (P - Z.of_nat (S j)) with (P - Z.of_nat j - 1) by lia. lia.
Qed.

Lemma Forall2_of_nth_error {A B : Type} (R : A -> B -> Prop)
      (xs : list A) (ys : list B) :
  List.length xs = List.length ys ->
  (forall i x y, nth_error xs i = Some x -> nth_error ys i = Some y -> R x y) ->
  Forall2 R xs ys.
Proof.
  revert ys. induction xs as [|x xs IH]; intros [|y ys] Hlen Hat;
    try discriminate; constructor.
  - apply (Hat 0%nat); reflexivity.
  - apply IH; [simpl in Hlen; lia|].
    intros i x' y' Hx Hy. apply (Hat (S i)); assumption.
Qed.

(** Two inputs of one batch size, height and width, large enough for [P]
    poolings and for the decoder: the network is built. *)
Lemma build_double_unet_runs kp image poly_map image_fbc poly_map_fbc
      common_fbc P disp_channels add_seg seg_channels wd :
  1 <= P ->
  batch (get_shape image) = batch (get_shape poly_map) ->
  height (get_shape image) = height (get_shape poly_map) ->
  width (get_shape image) = width (get_shape poly_map) ->
  16 * 2 ^ P - 4 <= height (get_shape image) ->
  16 * 2 ^ P - 4 <= width (get_shape image) ->
  exists n,
    build_double_unet kp image poly_map image_fbc poly_map_fbc common_fbc P
                      disp_channels add_seg seg_channels wd = Ok n.
Proof.
  intros HP Hbatch Hheight Hwidth Hh Hw.
  assert (HP0 : 0 <= P) by lia.
  assert (Hpow : 2 <= 2 ^ P).
  { rewrite (pow2_double P) by lia.
    pose proof (Z.pow_pos_nonneg 2 (P - 1)). lia. }
  assert (Hmin : min_extent P <= 16 * 2 ^ P - 4) by (unfold min_extent; lia).
  destruct (build_input_branch_runs [] image image_fbc P "branch_image" wd)
    as (a & Ha); [lia..|].
  destruct (build_input_branch_runs [] poly_map poly_map_fbc P
                                    "branch_poly_map" wd)
    as (b & Hb); [lia..|].
  destruct (build_input_branch_ok _ _ _ _ _ _ _ HP0 Ha) as [Hla Hinva].
  destruct (build_input_branch_ok _ _ _ _ _ _ _ HP0 Hb) as [Hlb Hinvb].
  (* the features of the two branches, level by level *)
  assert (Hfeat : forall (i : nat) la,
             nth_error a i = Some la ->
             exists ca pa,
               la = (Some ca, pa)
               /\ batch (get_shape ca) = batch (get_shape image)
               /\ height (get_shape ca)
                  = level_extent (height (get_shape image)) i - 4
               /\ width (get_shape ca)
                  = level_extent (width (get_shape image)) i - 4).
  { intros i [fa pa] Hnth.
    destruct (proj1 (Forall_forall _ _)
                    (input_levels_built_pyramid _ _ _ _ _ _ Hinva)
                    _ (nth_error_In _ _ Hnth)) as (ca & Hca).
    cbn [fst] in Hca. subst fa. exists ca, pa. split; [reflexivity|].
    split; [eapply input_levels_built_batch; eassumption|].
    eapply input_levels_built_extents; eassumption. }
  assert (Hfeatb : forall (i : nat) lb,
             nth_error b i = Some lb ->
             exists cb pb,
               lb = (Some cb, pb)
               /\ batch (get_shape cb) = batch (get_shape poly_map)
               /\ height (get_shape cb)
                  = level_extent (height (get_shape poly_map)) i - 4
               /\ width (get_shape cb)
                  = level_extent (width (get_shape poly_map)) i - 4).
  { intros i [fb pb] Hnth.
    destruct (proj1 (Forall_forall _ _)
                    (input_levels_built_pyramid _ _ _ _ _ _ Hinvb)
                    _ (nth_error_In _ _ Hnth)) as (cb & Hcb).
    cbn [fst] in Hcb. subst fb. exists cb, pb. split; [reflexivity|].
    split; [eapply input_levels_built_batch; eassumption|].
    eapply input_levels_built_extents; eassumption. }
  assert (Hroom : forall i : nat, Z.of_nat i <= P ->
             12 <= level_extent (height (get_shape image)) i
             /\ 12 <= level_extent (width (get_shape image)) i).
  { intros i Hi.
    pose proof (level_extent_bound 16 P _ i Hh Hi).
    pose proof (level_extent_bound 16 P _ i Hw Hi).
    pose proof (Z.pow_pos_nonneg 2 (P - Z.of_nat i)). lia. }
  assert (Hfus : fusable a b).
  { apply Forall2_of_nth_error; [lia|].
    intros i la lb Hnla Hnlb.
    assert (Hi : Z.of_nat i <= P).
    { assert (i < List.length a)%nat; [|lia].
      apply nth_error_Some. rewrite Hnla. discriminate. }
    destruct (Hfeat i la Hnla) as (ca & pa & -> & Hba & Hha & Hwa).
    destruct (Hfeatb i lb Hnlb) as (cb & pb & -> & Hbb & Hhb & Hwb).
    destruct (Hroom i Hi) as [Hrh Hrw].
    exists ca, cb. cbn [fst]. repeat split; try congruence; lia. }
  destruct (build_common_part_runs [] a b common_fbc "common_part" wd Hfus)
    as (common & Hc).
  destruct (build_common_part_ok _ _ _ _ _ _ _ Hc) as (Hlc & _ & Hbuilt).
  (* the common part: a coarsest level of 4x4 at least, and finer levels *)
  destruct common as [|c0 cs]; [simpl in Hlc; lia|].
  destruct (@exists_last _ (c0 :: cs) ltac:(discriminate))
    as (finer & coarsest & Hsplit).
  rewrite Hsplit in Hc, Hlc, Hbuilt. clear Hsplit c0 cs.
  rewrite length_app in Hlc. simpl in Hlc.
  assert (Hcoarse : 4 <= height (get_shape coarsest)
                    /\ 4 <= width (get_shape coarsest)).
  { destruct (Hbuilt (List.length finer) coarsest)
      as (la & lb & ca & cb & Hnla & Hca & _ & _ & ->).
    { rewrite nth_error_app2, Nat.sub_diag by lia. reflexivity. }
    destruct (Hfeat _ la Hnla) as (ca' & pa & -> & _ & Hha & Hwa).
    cbn [fst] in Hca. injection Hca as ->.
    destruct (Hroom (List.length finer) ltac:(lia)) as [Hrh Hrw].
    rewrite fused_level_shape. cbn [height width]. lia. }
  destruct Hcoarse as [Hch Hcw].
  destruct finer as [|f0 finer]; [simpl in Hlc; lia|].
  unfold build_double_unet. rewrite Ha. cbn [bind]. rewrite Hb. cbn [bind].
  rewrite Hc. cbn [bind].
  rewrite (proj2 (build_output_branch_iff [] (f0 :: finer) coarsest common_fbc
                    "branch_disp" wd _)
                 (conj eq_refl
                       (decoder_fits_from_coarsest _ _ _ _ _ Hch Hcw))).
  cbn [bind decoder_outputs].
  destruct add_seg.
  - rewrite (proj2 (build_output_branch_iff [] (f0 :: finer) coarsest
                      common_fbc "branch_seg" wd _)
                   (conj eq_refl
                         (decoder_fits_from_coarsest _ _ _ _ _ Hch Hcw))).
    cbn [bind require decoder_outputs].
    rewrite !build_pred_branches_cons. cbn [bind require]. eauto.
  - cbn [bind]. rewrite !build_pred_branches_cons. cbn [bind]. eauto.
Qed.

(** X10.  With a pooling count [P >= 1]: whenever [build_double_unet]
    returns, it returns a level-0 displacement prediction, which is also
    the first entry of the stack of displacement predictions, and that
    stack has exactly [P] levels -- one per resolution level except the
    coarsest; and it does return on every two inputs of one batch size,
    height and width whose height and width are [16 * 2^P - 4] at
    least. *)
Theorem build_double_unet_displacement_levels kp image poly_map image_fbc
        poly_map_fbc common_fbc P disp_channels add_seg seg_channels wd :
  1 <= P ->
  (forall n,
      build_double_unet kp image poly_map image_fbc poly_map_fbc common_fbc P
                        disp_channels add_seg seg_channels wd = Ok n ->
      exists pred0,
        level_0_disp_pred n = Some pred0
        /\ nth_error (unstack (stacked_disp_preds n)) 0 = Some pred0
        /\ Z.of_nat (List.length (unstack (stacked_disp_preds n))) = P)
  /\ (batch (get_shape image) = batch (get_shape poly_map) ->
      height (get_shape image) = height (get_shape poly_map) ->
      width (get_shape image) = width (get_shape poly_map) ->
      16 * 2 ^ P - 4 <= height (get_shape image) ->
      16 * 2 ^ P - 4 <= width (get_shape image) ->
      exists n,
        build_double_unet kp image poly_map image_fbc poly_map_fbc common_fbc
                          P disp_channels add_seg seg_channels wd = Ok n).
Proof.
  intros HP. split.
  - intros n Hrun.
    assert (HP0 : 0 <= P) by lia.
    destruct (build_double_unet_outputs _ _ _ _ _ _ _ _ _ _ _ _ HP0 Hrun)
      as (_ & (pred0 & H0 & Hfirst) & Hlen & _).
    exists pred0. repeat split; assumption.
  - intros Hb Hh Hw Hhe Hwe. apply build_double_unet_runs; assumption.
Qed.

(** One pooling on two 28x28 inputs, the smallest that fit. *)
Lemma build_double_unet_displacement_levels_witness :
  exists n pred0,
    build_double_unet (placeholder 0)
                      (input_tensor "input_image" (mkShape 1 28 28 3))
                      (input_tensor "input_poly_map" (mkShape 1 28 28 1))
                      8 8 8 1 2 true 1 None = Ok n
    /\ level_0_disp_pred n = Some pred0
    /\ nth_error (unstack (stacked_disp_preds n)) 0 = Some pred0
    /\ Z.of_nat (List.length (unstack (stacked_disp_preds n))) = 1.
Proof.
  destruct (build_double_unet_displacement_levels
              (placeholder 0)
              (input_tensor "input_image" (mkShape 1 28 28 3))
              (input_tensor "input_poly_map" (mkShape 1 28 28 1))
              8 8 8 1 2 true 1 None ltac:(lia)) as [Hlevels Hruns].
  destruct Hruns as (n & Hrun);
    [reflexivity|reflexivity|reflexivity|vm_compute; discriminate ..|].
  destruct (Hlevels n Hrun) as (pred0 & H0 & Hfirst & Hlen).
  exists n, pred0. repeat split; assumption.
Defined.

(** X11.  The segmentation outputs follow [add_seg_output], whenever
    [build_double_unet] returns.  When it is set, the network returns a
    stack of [P] segmentation logits and, as level-0 segmentation
    prediction, the sigmoid of the first logit of that stack; the stack
    itself holds the logits, without sigmoid.  When it is not set, both
    segmentation outputs are [None]. *)
Theorem build_double_unet_segmentation kp image poly_map image_fbc
        poly_map_fbc common_fbc P disp_channels add_seg seg_channels wd n :
  0 <= P ->
  build_double_unet kp image poly_map image_fbc poly_map_fbc common_fbc P
                    disp_channels add_seg seg_channels wd = Ok n ->
  (add_seg = true ->
   exists logit0 logits,
     stacked_seg_pred_logits n = Some logits
     /\ nth_error (unstack logits) 0 = Some logit0
     /\ Z.of_nat (List.length (unstack logits)) = P
     /\ level_0_seg_pred n = Some (sigmoid logit0))
  /\ (add_seg = false ->
      stacked_seg_pred_logits n = None /\ level_0_seg_pred n = None).
Proof.
  intros HP Hrun.
  destruct (build_double_unet_outputs _ _ _ _ _ _ _ _ _ _ _ _ HP Hrun)
    as (_ & _ & _ & Hseg).
  split; intros ->; exact Hseg.
Qed.

(** The scenario without a segmentation branch. *)
Lemma build_double_unet_segmentation_witness :
  exists n,
    build_double_unet (placeholder 0) scenario_image scenario_poly_map
                      8 8 8 2 2 false 1 None = Ok n
    /\ stacked_seg_pred_logits n = None /\ level_0_seg_pred n = None.
Proof.
  eexists. split; [reflexivity|].
  apply (proj2 (build_double_unet_segmentation
                  (placeholder 0) scenario_image scenario_poly_map 8 8 8 2 2
                  false 1 None _ ltac:(lia) eq_refl)).
  reflexivity.
Defined.

(** No round of the loop runs for a negative pooling count. *)
Lemma build_input_branch_no_round sc input fbc P name wd :
  P < 0 -> build_input_branch sc input fbc P name wd = Ok [].
Proof.
  intros HP. unfold build_input_branch.
  assert (Hrange : range (P + 1) = []).
  { unfold range. now replace (Z.to_nat (P + 1)) with 0%nat by lia. }
  now rewrite Hrange.
Qed.

(** A branch with a pooling count of 0, on an input of 6x6 at least. *)
Lemma build_input_branch_single_level sc input fbc name wd :
  6 <= height (get_shape input) -> 6 <= width (get_shape input) ->
  exists conv pool,
    build_input_branch sc input fbc 0 name wd = Ok [(Some conv, pool)]
    /\ get_shape conv
       = mkShape (batch (get_shape input)) (height (get_shape input) - 4)
                 (width (get_shape input) - 4) (fbc * 2 ^ 0).
Proof.
  intros Hh Hw.
  destruct (level_of_shapes (variable_scope sc name) fbc 0 wd 0 input)
    as (conv & Hfst & Hshape & _).
  destruct (level_of (variable_scope sc name) fbc 0 wd 0 input)
    as [fc pool] eqn:Hlevel.
  cbn [fst] in Hfst. subst fc.
  exists conv, pool. split; [|exact Hshape].
  unfold build_input_branch. change (range (0 + 1)) with [0].
  cbn [for_each].
  rewrite (input_level_runs _ _ _ 0 _ 0 [] input);
    [cbn [bind app Z.of_nat]; now rewrite Hlevel|lia|reflexivity|].
  apply block_fits_two. repeat split; lia.
Qed.

(** X12.  Without a pooling the network cannot be built: for a pooling
    count of 0, or a negative one, [build_double_unet] returns on no
    input.  With a negative count nothing is built, there is no
    prediction to stack, and the call fails with the [IndexError] of
    [tf.stack] on an empty list; with a count of 0 it fails in the same
    way on two inputs of one batch size, height and width whose height
    and width are 9 at least. *)
Theorem build_double_unet_needs_a_pooling kp image poly_map image_fbc
        poly_map_fbc common_fbc P disp_channels add_seg seg_channels wd :
  P <= 0 ->
  (forall n,
      build_double_unet kp image poly_map image_fbc poly_map_fbc common_fbc P
                        disp_channels add_seg seg_channels wd <> Ok n)
  /\ (P < 0 ->
      build_double_unet kp image poly_map image_fbc poly_map_fbc common_fbc P
                        disp_channels add_seg seg_channels wd
      = Raise (IndexError "list index out of range"))
  /\ (P = 0 ->
      batch (get_shape image) = batch (get_shape poly_map) ->
      height (get_shape image) = height (get_shape poly_map) ->
      width (get_shape image) = width (get_shape poly_map) ->
      9 <= height (get_shape image) -> 9 <= width (get_shape image) ->
      build_double_unet kp image poly_map image_fbc poly_map_fbc common_fbc P
                        disp_channels add_seg seg_channels wd
      = Raise (IndexError "list index out of range")).
Proof.
  intros HP.
  assert (Hneg : P < 0 ->
            build_double_unet kp image poly_map image_fbc poly_map_fbc
                              common_fbc P disp_channels add_seg seg_channels
                              wd
            = Raise (IndexError "list index out of range")).
  { intros Hlt. unfold build_double_unet.
    rewrite !build_input_branch_no_round by lia.
    destruct add_seg; reflexivity. }
  split; [|split; [exact Hneg|]].
  - intros n Hrun. destruct (Z.eq_dec P 0) as [->|Hne].
    + destruct (build_double_unet_outputs _ _ _ _ _ _ _ _ _ _ _ _
                  (Z.le_refl 0) Hrun) as [Habs _]. lia.
    + rewrite Hneg in Hrun by lia. discriminate.
  - intros -> Hbatch Hheight Hwidth Hh Hw.
    destruct (build_input_branch_single_level
                [] image image_fbc "branch_image" wd)
      as (ca & pa & Ha & Hsha); [lia|lia|].
    destruct (build_input_branch_single_level
                [] poly_map poly_map_fbc "branch_poly_map" wd)
      as (cb & pb & Hb & Hshb); [lia|lia|].
    unfold build_double_unet. rewrite Ha, Hb. cbn [bind].
    unfold build_common_part. cbn [List.length Nat.eqb negb].
    change (range (Z.of_nat 1)) with [0]. cbn [for_each].
    rewrite (common_level_reads_features _ [(Some ca, pa)] [(Some cb, pb)]).
    cbn [map fst getitem Z.ltb Z.compare List.length Z.of_nat nth_error
         Z.to_nat bind require].
    rewrite concat_check_ok by (rewrite Hsha, Hshb; cbn; lia).
    cbn [bind]. rewrite conv_conv_pool_runs.
    + cbn [bind app]. destruct add_seg; reflexivity.
    + apply block_fits_two. cbn [get_shape height width]. rewrite Hsha.
      cbn [height width]. repeat split; try lia; discriminate.
Qed.

(** The scenario with no pooling. *)
Lemma build_double_unet_needs_a_pooling_witness :
  build_double_unet (placeholder 0) scenario_image scenario_poly_map
                    8 8 8 0 2 true 1 None
  = Raise (IndexError "list index out of range").
Proof.
  apply (proj2 (proj2 (build_double_unet_needs_a_pooling
                         (placeholder 0) scenario_image scenario_poly_map
                         8 8 8 0 2 true 1 None ltac:(lia))));
    first [reflexivity | vm_compute; discriminate].
Defined.

(** X13.  The displacement outputs do not depend on the segmentation
    branch: whether [add_seg_output] is set or not, and whatever
    [seg_output_channels] is, [build_double_unet] has the same outcome --
    the same error, or the same level-0 displacement prediction and the
    same stack of displacement predictions. *)
Theorem displacement_ignores_segmentation kp image poly_map image_fbc
        poly_map_fbc common_fbc P disp_channels add_seg add_seg'
        seg_channels seg_channels' wd :
  displacement
    (build_double_unet kp image poly_map image_fbc poly_map_fbc common_fbc P
                       disp_channels add_seg seg_channels wd)
  = displacement
      (build_double_unet kp image poly_map image_fbc poly_map_fbc common_fbc
                         P disp_channels add_seg' seg_channels' wd).
Proof.
  unfold build_double_unet.
  destruct (build_input_branch [] image image_fbc P "branch_image" wd)
    as [a|]; [|reflexivity].
  destruct (build_input_branch [] poly_map poly_map_fbc P "branch_poly_map"
                               wd) as [b|]; [|reflexivity].
  cbn [bind].
  destruct (build_common_part [] a b common_fbc "common_part" wd)
    as [common|]; [|reflexivity].
  cbn [bind].
  destruct (build_output_branch [] common common_fbc "branch_disp" wd)
    as [disp|] eqn:Hdisp; [|reflexivity].
  destruct (build_output_branch_scope [] common common_fbc "branch_disp"
                                      "branch_seg" wd disp Hdisp)
    as (seg & Hseg_run & Hseg).
  cbn [bind].
  assert (Hheads : forall add_seg seg_channels,
            displacement
              (seg_levels <-
                 (if add_seg : bool
                  then levels <- build_output_branch [] common common_fbc
                                                     "branch_seg" wd ;;
                       Ok (Some levels)
                  else Ok None) ;;
               '(level_0_disp_pred, stacked_disp_preds) <-
                 build_pred_branches [] disp disp_channels tanh
                                     "branch_disp_pred" ;;
               '(level_0_seg_pred, stacked_seg_pred_logits) <-
                 (if add_seg
                  then seg_levels <- require seg_levels ;;
                       '(level_0_seg_pred_logit, stacked_seg_pred_logits) <-
                         build_pred_branches [] seg_levels seg_channels
                                             identity
                                             "branch_seg_pred_logit" ;;
                       level_0_seg_pred_logit <-
                         require level_0_seg_pred_logit ;;
                       let level_0_seg_pred :=
                         sigmoid level_0_seg_pred_logit in
                       Ok (Some level_0_seg_pred,
                           Some stacked_seg_pred_logits)
                  else Ok (None, None)) ;;
               Ok (mkNetwork level_0_disp_pred stacked_disp_preds
                             level_0_seg_pred stacked_seg_pred_logits kp))
            = (x <- build_pred_branches [] disp disp_channels tanh
                                        "branch_disp_pred" ;; Ok x)).
  { intros flag channels. rewrite Hseg_run.
    destruct disp as [|d0 ds].
    - destruct flag; reflexivity.
    - destruct seg as [|s0 ss]; [simpl in Hseg; lia|].
      destruct flag; cbn [bind require];
        rewrite !build_pred_branches_cons; reflexivity. }
  now rewrite !Hheads.
Qed.

(** The scenario, with and without its segmentation branch. *)
Lemma displacement_ignores_segmentation_witness :
  displacement
    (build_double_unet (placeholder 0) scenario_image scenario_poly_map
                       8 8 8 2 2 true 1 None)
  = displacement
      (build_double_unet (placeholder 0) scenario_image scenario_poly_map
                         8 8 8 2 2 false 3 None).
Proof.
  apply (displacement_ignores_segmentation
           (placeholder 0) scenario_image scenario_poly_map 8 8 8 2 2 true
           false 1 3 None).
Defined.
